(** * machina: value-function base class, episode transforms and training drivers

    A shallow embedding of
    - [machina/vfuncs/state_action_vfuncs/base.py]  (module [Vfunc]),
    - the episodes, the trajectory store, the episode transforms and the
      advantage estimator the drivers call (modules [Data], [ef] and
      [Gae]), whose code the drivers import,
    - [example/run_mpc.py] and [example/run_trpo.py] (modules [Mpc], [Trpo]).

    Python objects that are mutated through several names (the [Traj]
    objects of [run_mpc.py]) live in a store indexed by references, so that
    rebinding a name and mutating an object are different things, as in
    Python. *)

From Stdlib Require Import ZArith QArith Qabs Lia Bool String.
From stdpp Require Import base option list gmap.

Set Default Proof Using "Type".

(** ** Exceptions and results *)

(** The error taxonomy of the library. *)
Inductive exn : Type :=
| ShapeMismatchError
| InvalidStateError
| InvalidArgumentError.

(** A call either returns a value or raises. *)
Inductive result (A : Type) : Type :=
| Ok (a : A)
| Raise (e : exn).
Arguments Ok {A} a.
Arguments Raise {A} e.

(** * [machina/vfuncs/state_action_vfuncs/base.py] *)
Module Vfunc.

Local Open Scope Z_scope.

(** A [torch.Tensor]: its [shape] (a [torch.Size]) and its elements in
    row-major order.  [unsqueeze] leaves the elements as they are. *)
Record Tensor (Elem : Type) : Type := mkTensor {
  shape : list nat;
  data : list Elem
}.
Arguments mkTensor {Elem} shape data.
Arguments shape {Elem} t.
Arguments data {Elem} t.

(** [t.unsqueeze(0)]: a new leading dimension of size one. *)
Definition unsqueeze0 {Elem} (t : Tensor Elem) : Tensor Elem :=
  mkTensor (1%nat :: shape t) (data t).

(** A [gym.Space], of which the class reads [.shape] only. *)
Record Space : Type := mkSpace { space_shape : list nat }.

(** [range(n)] of a Python integer runs [max 0 n] times. *)
Definition range_len (n : Z) : nat := Z.to_nat n.

(** [for _ in range(n): t = t.unsqueeze(0)] *)
Definition unsqueeze_times {Elem} (n : Z) (t : Tensor Elem) : Tensor Elem :=
  Nat.iter (range_len n) unsqueeze0 t.

Section BaseSAVfunc.
(** The network, the recurrent hidden state, the [nn.DataParallel]
    wrapper and the state [nn.Module.__init__] sets up are opaque here. *)
Context {Net Hidden Module_ : Type}.

(** The attributes [__init__] assigns.  [dp_net] exists only when
    [data_parallel] was true: it holds the network and [parallel_dim]. *)
Record BaseSAVfunc : Type := mkBaseSAVfunc {
  nn_module : Module_;
  ob_space : Space;
  ac_space : Space;
  net : Net;
  rnn : bool;
  hs : option Hidden;
  data_parallel : bool;
  dp_net : option (Net * Z);
  dp_run : bool
}.

(** [BaseSAVfunc.__init__]; [m0] is the state [nn.Module.__init__] leaves. *)
Definition init (m0 : Module_) (ob_space ac_space : Space) (net : Net)
    (rnn data_parallel : bool) (parallel_dim : Z) : BaseSAVfunc :=
  {| nn_module := m0;
     ob_space := ob_space;
     ac_space := ac_space;
     net := net;
     rnn := rnn;
     hs := None;
     data_parallel := data_parallel;
     dp_net := if data_parallel then Some (net, parallel_dim) else None;
     dp_run := false |}.

(** [self.hs = None] *)
Definition set_hs (self : BaseSAVfunc) (h : option Hidden) : BaseSAVfunc :=
  {| nn_module := nn_module self;
     ob_space := ob_space self;
     ac_space := ac_space self;
     net := net self;
     rnn := rnn self;
     hs := h;
     data_parallel := data_parallel self;
     dp_net := dp_net self;
     dp_run := dp_run self |}.

(** [BaseSAVfunc.reset]: the object after the call. *)
Definition reset (self : BaseSAVfunc) : BaseSAVfunc :=
  if rnn self then set_hs self None else self.

Context {Elem : Type}.

(** The rank below which [_check_obs_shape] and [_check_acs_shape]
    reshape: [additional_shape + len(space.shape)]. *)
Definition additional_shape (self : BaseSAVfunc) : Z :=
  if rnn self then 2 else 1.

Definition rank (t : Tensor Elem) : Z := Z.of_nat (length (shape t)).

Definition space_rank (s : Space) : Z := Z.of_nat (length (space_shape s)).

(** [BaseSAVfunc._check_obs_shape] *)
Definition _check_obs_shape (self : BaseSAVfunc) (obs : Tensor Elem)
    : result (Tensor Elem) :=
  let additional_shape := if rnn self then 2 else 1 in
  if rank obs <? additional_shape + space_rank (ob_space self) then
    Ok (unsqueeze_times
          (additional_shape + space_rank (ob_space self) - rank obs) obs)
  else Ok obs.

(** [BaseSAVfunc._check_acs_shape] *)
Definition _check_acs_shape (self : BaseSAVfunc) (acs : Tensor Elem)
    : result (Tensor Elem) :=
  let additional_shape := if rnn self then 2 else 1 in
  if rank acs <? additional_shape + space_rank (ac_space self) then
    Ok (unsqueeze_times
          (additional_shape + space_rank (ac_space self) - rank acs) acs)
  else Ok acs.

(** The rank the two checks bring a tensor up to. *)
Definition obs_threshold (self : BaseSAVfunc) : Z :=
  additional_shape self + space_rank (ob_space self).

Definition acs_threshold (self : BaseSAVfunc) : Z :=
  additional_shape self + space_rank (ac_space self).

End BaseSAVfunc.

Arguments BaseSAVfunc : clear implicits.

End Vfunc.

(** * Episodes and trajectories ([machina.traj]) *)
Module Data.

Local Open Scope Z_scope.

(** numpy's arithmetic on the arrays an episode holds per timestep (an
    observation, an action) and on the statistics computed from them.  The
    drivers reach it only through the transforms below. *)
Class ArrayOps (Arr : Type) : Type := {
  arr_sub : Arr -> Arr -> Arr;
  arr_div : Arr -> Arr -> Arr;
  np_mean : list Arr -> Arr;
  np_std : list Arr -> Arr;
  floor_eps : Arr -> Arr
}.

Section Episodes.
Context {Arr : Type}.

(** Modelled from the spec: an episode record, the dictionary the drivers
    index with ['obs'] and ['rews'].  It holds the per-timestep sequences
    the sampler returns ([obs], [acs], [rews], [dones]) and the two derived
    fields, absent until a transform adds them. *)
Record Epi : Type := mkEpi {
  obs : list Arr;
  acs : list Arr;
  rews : list Q;
  dones : list bool;
  next_obs : option (list Arr);
  h_masks : option (list Z)
}.

(** Modelled from the spec: the episode's length, one entry per timestep
    in every field. *)
Definition epi_len (e : Epi) : nat := length (obs e).

(** Modelled from the spec: the trajectory store [Traj] of
    [machina.traj], an ordered collection of episodes with a flat view
    that is valid only after [register_epis]. *)
Record Traj : Type := mkTraj {
  episodes : list Epi;
  registered : bool
}.

(** Modelled from the spec: [Traj()], the empty store. *)
Definition new_traj : Traj := mkTraj [] false.

(** Modelled from the spec: [Traj.add_epis], which appends and does not
    register. *)
Definition add_epis (self : Traj) (epis : list Epi) : Traj :=
  mkTraj (episodes self ++ epis) false.

(** Modelled from the spec: [Traj.register_epis], which (re)builds the flat
    view. *)
Definition register_epis (self : Traj) : Traj :=
  mkTraj (episodes self) true.

(** Modelled from the spec: [Traj.add_traj], which appends the other
    store's episodes and leaves the flat view to be rebuilt. *)
Definition add_traj (self other : Traj) : Traj :=
  mkTraj (episodes self ++ episodes other) false.

(** Modelled from the spec: [Traj.num_epi] and [Traj.num_step], the counts
    a direct scan of the episodes gives. *)
Definition num_epi (self : Traj) : Z := Z.of_nat (length (episodes self)).

(** Modelled from the spec: [Traj.num_step], the timesteps of all
    episodes. *)
Definition num_step (self : Traj) : Z :=
  foldr Z.add 0 ((fun e => Z.of_nat (epi_len e)) <$> episodes self).

End Episodes.

Arguments Epi : clear implicits.
Arguments Traj : clear implicits.

End Data.

(** * The episode transforms ([machina.traj.epi_functional], imported as [ef]) *)
Module ef.

Import Data.
Local Open Scope Z_scope.

Section Transforms.
Context {Arr : Type} `{!ArrayOps Arr}.

(** Modelled from the spec: the [next_obs] sequence of [add_next_obs],
    [obs] shifted one step forward with the last observation repeated at
    the final timestep ([obs[1:] + obs[-1:]]). *)
Definition shift_obs (o : list Arr) : list Arr :=
  drop 1 o ++ drop (length o - 1) o.

(** Modelled from the spec: [add_next_obs] on one episode, which adds
    the field and leaves the others. *)
Definition add_next_obs_epi (e : Epi Arr) : Epi Arr :=
  {| obs := obs e; acs := acs e; rews := rews e; dones := dones e;
     next_obs := Some (shift_obs (obs e));
     h_masks := h_masks e |}.

(** Modelled from the spec: [add_next_obs], applied to every episode of
    the trajectory. *)
Definition add_next_obs (t : Traj Arr) : Traj Arr :=
  mkTraj (add_next_obs_epi <$> episodes t) (registered t).

(** Modelled from the spec: the rule of the horizon mask for an episode of
    length [L], where timestep [i] gets 1 if [i + horizon <= L] and 0
    otherwise.  Whether the horizon is one the library accepts is checked
    by [compute_horizon_masks] below, before the rule is applied. *)
Definition horizon_mask (horizon : Z) (L : nat) : list Z :=
  (fun i : nat => if Z.of_nat i + horizon <=? Z.of_nat L then 1 else 0)
    <$> seq 0 L.

(** Modelled from the spec: [compute_horizon_masks(horizon)] on one
    episode, which adds the mask and leaves the other fields. *)
Definition compute_h_masks_epi (horizon : Z) (e : Epi Arr) : Epi Arr :=
  {| obs := obs e; acs := acs e; rews := rews e; dones := dones e;
     next_obs := next_obs e;
     h_masks := Some (horizon_mask horizon (epi_len e)) |}.

(** Modelled from the spec: [compute_h_masks] (the spec's
    [compute_horizon_masks(horizon)]), applied to every episode. *)
Definition compute_h_masks (horizon : Z) (t : Traj Arr) : Traj Arr :=
  mkTraj (compute_h_masks_epi horizon <$> episodes t) (registered t).

(** Modelled from the spec: the valid domain of a horizon.  A horizon is
    the length of a lookahead window, at least one step. *)
Definition valid_horizon (horizon : Z) : bool := 1 <=? horizon.

(** Modelled from the spec: [compute_horizon_masks(horizon)] as a caller
    that passes a horizon reaches it.  A horizon outside the valid domain
    fails with [InvalidArgumentError]; a valid one gives every episode its
    mask. *)
Definition compute_horizon_masks (horizon : Z) (t : Traj Arr)
    : result (Traj Arr) :=
  if valid_horizon horizon then Ok (compute_h_masks horizon t)
  else Raise InvalidArgumentError.

(** The number of ones the masks below turn out to hold: [min L (max 0 (L - h + 1))]. *)
Definition ones (h : Z) (L : nat) : nat :=
  Z.to_nat (Z.min (Z.of_nat L) (Z.max 0 (Z.of_nat L - h + 1))).

(** The number of timesteps a mask marks with 1 (the spec's mask sum). *)
Definition mask_sum (m : list Z) : Z := foldr Z.add 0 m.

(** Modelled from the spec: the normalization statistics, the mean and
    the standard deviation of the observations and of the actions. *)
Record Stats : Type := mkStats {
  mean_obs : Arr;
  std_obs : Arr;
  mean_acs : Arr;
  std_acs : Arr
}.

(** Modelled from the spec: the statistics [normalize_obs_and_acs]
    computes when it is given none, over all observations and all actions
    of the trajectory, the standard deviations floored at epsilon. *)
Definition compute_stats (epis : list (Epi Arr)) : Stats :=
  let all_obs := concat (obs <$> epis) in
  let all_acs := concat (acs <$> epis) in
  {| mean_obs := np_mean all_obs;
     std_obs := floor_eps (np_std all_obs);
     mean_acs := np_mean all_acs;
     std_acs := floor_eps (np_std all_acs) |}.

(** Modelled from the spec: [(x - mean) / std]. *)
Definition normalize_arr (mean std x : Arr) : Arr :=
  arr_div (arr_sub x mean) std.

(** Modelled from the spec: one episode normalized with given statistics;
    [run_mpc.py] expects [obs], [next_obs] and [acs] to be normalized. *)
Definition normalize_epi (st : Stats) (e : Epi Arr) : Epi Arr :=
  {| obs := normalize_arr (mean_obs st) (std_obs st) <$> obs e;
     acs := normalize_arr (mean_acs st) (std_acs st) <$> acs e;
     rews := rews e;
     dones := dones e;
     next_obs := fmap (M := list) (normalize_arr (mean_obs st) (std_obs st))
                   <$> next_obs e;
     h_masks := h_masks e |}.

(** Modelled from the spec: [normalize_obs_and_acs(traj, [stats])].
    Without statistics it computes them from the trajectory; with
    statistics it applies the given ones.  It returns the trajectory and
    the statistics it applied. *)
Definition normalize_obs_and_acs (t : Traj Arr) (given : option Stats)
    : Traj Arr * Stats :=
  let st := match given with
            | Some st => st
            | None => compute_stats (episodes t)
            end in
  (mkTraj (normalize_epi st <$> episodes t) (registered t), st).

End Transforms.

Arguments Stats : clear implicits.

End ef.

(** * Generalized advantage estimation ([machina.data.GAEData.preprocess]) *)
Module Gae.

Import Data.
Local Open Scope Q_scope.






Section Estimator.
Context {Arr : Type}.

(** The fitted value function, and the estimate it gives past the last
    step of an episode. *)
Variable V : Arr -> Q.
Variable v_end : Epi Arr -> Q.




End Estimator.

End Gae.

(** * Rewards as the drivers read them *)
Module Rew.

Local Open Scope Q_scope.

(** [np.sum(epi['rews'])] *)
Definition np_sum (l : list Q) : Q := foldr Qplus 0 l.

(** [np.mean(rewards)]: not a number ([None]) on an empty list. *)
Definition np_mean (l : list Q) : option Q :=
  match l with
  | [] => None
  | _ => Some (np_sum l / inject_Z (Z.of_nat (length l)))
  end.

(** [x < y] on floats that are numbers. *)
Definition Qlt_bool (x y : Q) : bool :=
  (Qnum x * Zpos (Qden y) <? Qnum y * Zpos (Qden x))%Z.

(** [mean_rew > max_rew]: false when [mean_rew] is not a number. *)
Definition exceeds (mean_rew : option Q) (max_rew : Q) : bool :=
  match mean_rew with
  | Some m => Qlt_bool max_rew m
  | None => false
  end.

(** [max_rew = mean_rew], executed only in the branch where the test
    above held. *)
Definition new_max (mean_rew : option Q) (max_rew : Q) : Q :=
  match mean_rew with
  | Some m => m
  | None => max_rew
  end.

(** Mean rewards that are the same numbers. *)
Definition same_mean (a b : option Q) : Prop :=
  match a, b with
  | Some x, Some y => x == y
  | None, None => True
  | _, _ => False
  end.

End Rew.

(** * [example/run_mpc.py] *)
Module Mpc.

Import Data ef Rew.
Local Open Scope Z_scope.

Section Script.
Context {Arr : Type} `{!ArrayOps Arr}.

(** A reference to a [Traj] object. *)
Definition ref : Type := nat.

(** What the script does to the world outside it: calls of the external
    collaborators and writes of files, in the order they happen.  An
    [EvSave] carries the value of [counter_agg_iters] at the write. *)
Inductive event : Type :=
| EvComputeStats (from : list (Epi Arr))
| EvNormalize (st : Stats Arr) (epis : list (Epi Arr))
| EvTrain (data : list (Epi Arr))
| EvPolicy (st : Stats Arr)
| EvRecord (total_epi step total_step : Z) (rewards : list Q)
| EvSave (file : string) (iter : Z).

(** The objects alive and what has happened so far. *)
Record Store : Type := mkStore {
  heap : gmap nat (Traj Arr);
  next_ref : ref;
  trace : list event
}.

Definition empty_store : Store := mkStore ∅ 0%nat [].

(** Statements: they read and change the store. *)
Definition M (A : Type) : Type := Store -> A * Store.

Definition ret {A} (a : A) : M A := fun s => (a, s).

Definition bind {A B} (m : M A) (k : A -> M B) : M B :=
  fun s => let (a, s') := m s in k a s'.

Notation "x <- m ;; k" := (bind m (fun x => k))
  (at level 100, m at next level, right associativity).
Notation "m ;;; k" := (bind m (fun _ => k))
  (at level 100, right associativity).

(** [Traj()] *)
Definition alloc (t : Traj Arr) : M ref :=
  fun s => (next_ref s,
            mkStore (<[next_ref s := t]> (heap s)) (S (next_ref s)) (trace s)).

Definition read (l : ref) : M (Traj Arr) :=
  fun s => (default new_traj (heap s !! l), s).

Definition write (l : ref) (t : Traj Arr) : M unit :=
  fun s => (tt, mkStore (<[l := t]> (heap s)) (next_ref s) (trace s)).

Definition emit (e : event) : M unit :=
  fun s => (tt, mkStore (heap s) (next_ref s) (trace s ++ [e])).

(** Modelled from the spec: a method or transform that changes the
    object in place and returns it. *)
Definition in_place (f : Traj Arr -> Traj Arr) (l : ref) : M ref :=
  t <- read l ;; write l (f t) ;;; ret l.

(** [self.add_traj(other)] on objects: [other] may be [self]. *)
Definition add_traj_obj (self other : ref) : M unit :=
  o <- read other ;; t <- read self ;; write self (add_traj t o).

(** Modelled from the spec: [ef.normalize_obs_and_acs] on an object,
    which normalizes in place and returns the object and the statistics
    applied.  The trace records whether statistics were computed and
    which ones were applied. *)
Definition normalize_obj (l : ref) (given : option (Stats Arr))
    : M (ref * Stats Arr) :=
  t <- read l ;;
  match given with
  | None => emit (EvComputeStats (episodes t))
  | Some _ => ret tt
  end ;;;
  let r := normalize_obs_and_acs t given in
  emit (EvNormalize (snd r) (episodes t)) ;;;
  write l (fst r) ;;;
  ret (l, snd r).

(** The horizon [compute_h_masks] uses when it is called without one, as
    the script calls it: the library's default is not among the sources. *)
Variable default_horizon : Z.

(** The episodes [rl_sampler.sample] returns in the iteration that starts
    with [counter_agg_iters = k]: the environment and the planner are
    external. *)
Variable rl_sample : Z -> list (Epi Arr).

(** The variables of the script that live across iterations. *)
Record Vars : Type := mkVars {
  traj : ref;
  stats : Stats Arr;
  total_epi : Z;
  total_step : Z;
  counter_agg_iters : Z;
  max_rew : Q
}.

(** Lines 121 to 129 and 151 to 154.  [epis] is what the random sampler
    returned, with the noise added to the first observations. *)
Definition prepare (epis : list (Epi Arr)) : M Vars :=
  traj <- alloc new_traj ;;
  in_place (fun t => add_epis t epis) traj ;;;
  traj <- in_place add_next_obs traj ;;
  traj <- in_place (compute_h_masks default_horizon) traj ;;
  r <- normalize_obj traj None ;;
  in_place register_epis (fst r) ;;;
  ret (mkVars (fst r) (snd r) 0 0 0 (-1 # 1000000)).

(** Lines 186 to 198: the two checkpoints and the counter. *)
Definition checkpoint (mean_rew : option Q) (v : Vars) : M Vars :=
  let k := counter_agg_iters v in
  (if exceeds mean_rew (max_rew v) then
     emit (EvSave "dm_max.pkl" k) ;;;
     emit (EvSave "optim_dm_max.pkl" k)
   else ret tt) ;;;
  emit (EvSave "dm_last.pkl" k) ;;;
  emit (EvSave "optim_dm_last.pkl" k) ;;;
  ret (mkVars (traj v) (stats v) (total_epi v) (total_step v)
         (k + 1)
         (if exceeds mean_rew (max_rew v)
          then new_max mean_rew (max_rew v) else max_rew v)).

(** Lines 156 to 199: one iteration of the train loop. *)
Definition loop_body (v : Vars) : M Vars :=
  data <- read (traj v) ;;
  emit (EvTrain (episodes data)) ;;;
  emit (EvPolicy (stats v)) ;;;
  let epis := rl_sample (counter_agg_iters v) in
  curr_traj <- alloc new_traj ;;
  in_place (fun t => add_epis t epis) curr_traj ;;;
  curr_traj <- in_place add_next_obs curr_traj ;;
  curr_traj <- in_place (compute_h_masks default_horizon) curr_traj ;;
  r <- normalize_obj curr_traj (Some (stats v)) ;;
  let traj := fst r in
  in_place register_epis curr_traj ;;;
  add_traj_obj traj curr_traj ;;;
  c <- read curr_traj ;;
  let total_epi := total_epi v + num_epi c in
  let step := num_step c in
  let total_step := total_step v + step in
  let rewards := (fun e => np_sum (rews e)) <$> epis in
  let mean_rew := Rew.np_mean rewards in
  emit (EvRecord total_epi step total_step rewards) ;;;
  checkpoint mean_rew
    (mkVars traj (stats v) total_epi total_step (counter_agg_iters v)
       (max_rew v)).

(** Lines 155 to 200: [while args.num_aggregation_iters >
    counter_agg_iters].  [None] when the fuel runs out before the loop
    exits. *)
Fixpoint while_loop (fuel : nat) (num_aggregation_iters : Z)
    (v : Vars) (s : Store) : option (Vars * Store) :=
  match fuel with
  | O => None
  | S fuel' =>
      if num_aggregation_iters >? counter_agg_iters v then
        let (v', s') := loop_body v s in
        while_loop fuel' num_aggregation_iters v' s'
      else Some (v, s)
  end.

(** The script from line 121 on. *)
Definition run_mpc (fuel : nat) (num_aggregation_iters : Z)
    (epis : list (Epi Arr)) : option (Vars * Store) :=
  let (v, s) := prepare epis empty_store in
  while_loop fuel num_aggregation_iters v s.

(** The loop body run [n] times. *)
Fixpoint iterate (n : nat) (v : Vars) (s : Store) : Vars * Store :=
  match n with
  | O => (v, s)
  | S n' => let (v', s') := loop_body v s in iterate n' v' s'
  end.

(** ** Reading a trace *)

(** The datasets [mpc.train_dm] was called on, in order. *)
Definition train_sets (tr : list event) : list (list (Epi Arr)) :=
  omap (fun e => match e with EvTrain d => Some d | _ => None end) tr.

(** The datasets statistics were computed from. *)
Definition stats_computed (tr : list event) : list (list (Epi Arr)) :=
  omap (fun e => match e with EvComputeStats d => Some d | _ => None end) tr.

(** The statistics each normalization applied, with the episodes it
    applied them to. *)
Definition stats_applied (tr : list event)
    : list (Stats Arr * list (Epi Arr)) :=
  omap (fun e => match e with EvNormalize st d => Some (st, d) | _ => None end)
    tr.

(** The statistics each planning policy was built with. *)
Definition stats_planned (tr : list event) : list (Stats Arr) :=
  omap (fun e => match e with EvPolicy st => Some st | _ => None end) tr.

(** The iterations, counted from 1, that wrote [file]. *)
Definition written (file : string) (tr : list event) : list Z :=
  omap (fun e => match e with
                 | EvSave f k => if String.eqb f file then Some (k + 1) else None
                 | _ => None
                 end) tr.

(** The iterations that wrote the "best" checkpoint of the model. *)
Definition best_written (tr : list event) : list Z := written "dm_max.pkl" tr.

(** The iterations that wrote the "latest" checkpoint of the model. *)
Definition last_written (tr : list event) : list Z := written "dm_last.pkl" tr.

(** [np.mean] of the episodes' summed rewards, as line 180 computes it. *)
Definition mean_rew_of (epis : list (Epi Arr)) : option Q :=
  Rew.np_mean ((fun e => np_sum (rews e)) <$> epis).

(** The iterations, counted from 1, at which the test of line 186 holds,
    for a loop that enters iteration [k + 1] with [max_rew] and then sees
    the mean rewards [means]. *)
Fixpoint best_iters (max_rew : Q) (k : Z) (means : list (option Q)) : list Z :=
  match means with
  | [] => []
  | m :: rest =>
      if exceeds m max_rew
      then (k + 1) :: best_iters (new_max m max_rew) (k + 1) rest
      else best_iters max_rew (k + 1) rest
  end.

(** The counter values of [n] iterations from [k] on. *)
Definition counters (k : Z) (n : nat) : list Z :=
  (fun i : nat => k + Z.of_nat i) <$> seq 0 n.

(** The episodes of a dataset as the trajectory holds them after the
    three transforms, the normalization with statistics [st]. *)
Definition processed (st : Stats Arr) (epis : list (Epi Arr))
    : list (Epi Arr) :=
  normalize_epi st <$>
    (compute_h_masks_epi default_horizon <$> (add_next_obs_epi <$> epis)).

(** The episodes of a dataset before the normalization. *)
Definition derived (epis : list (Epi Arr)) : list (Epi Arr) :=
  compute_h_masks_epi default_horizon <$> (add_next_obs_epi <$> epis).

(** ** The loop body in closed form *)

(** The checkpoint writes of the iteration that starts with counter [k]. *)
Definition save_events (best : bool) (k : Z) : list event :=
  (if best then [EvSave "dm_max.pkl" k; EvSave "optim_dm_max.pkl" k] else [])
  ++ [EvSave "dm_last.pkl" k; EvSave "optim_dm_last.pkl" k].

(** The object [traj] and [curr_traj] both name when line 174 has run:
    the new episodes, merged into themselves. *)
Definition merged (st : Stats Arr) (epis : list (Epi Arr)) : Traj Arr :=
  mkTraj (processed st epis ++ processed st epis) false.

(** What one iteration adds to the trace. *)
Definition body_events (v : Vars) (s : Store) : list event :=
  let k := counter_agg_iters v in
  let c := merged (stats v) (rl_sample k) in
  [EvTrain (episodes (default new_traj (heap s !! traj v)));
   EvPolicy (stats v);
   EvNormalize (stats v) (derived (rl_sample k));
   EvRecord (total_epi v + num_epi c) (num_step c) (total_step v + num_step c)
     ((fun e => np_sum (rews e)) <$> rl_sample k)]
  ++ save_events (exceeds (mean_rew_of (rl_sample k)) (max_rew v)) k.

(** The variables and the store one iteration leaves. *)
Definition after_body (v : Vars) (s : Store) : Vars * Store :=
  let k := counter_agg_iters v in
  let c := merged (stats v) (rl_sample k) in
  let m := mean_rew_of (rl_sample k) in
  (mkVars (next_ref s) (stats v) (total_epi v + num_epi c)
     (total_step v + num_step c) (k + 1)
     (if exceeds m (max_rew v) then new_max m (max_rew v) else max_rew v),
   mkStore (<[next_ref s := c]> (heap s)) (S (next_ref s))
     (trace s ++ body_events v s)).

(** The variables and the store the preparation leaves. *)
Definition after_prepare (epis : list (Epi Arr)) : Vars * Store :=
  let st := compute_stats (derived epis) in
  (mkVars 0%nat st 0 0 0 (-1 # 1000000),
   mkStore (<[0%nat := mkTraj (processed st epis) true]> ∅) 1%nat
     [EvComputeStats (derived epis); EvNormalize st (derived epis)]).

(** The datasets the iterations after the first train on, for [n]
    iterations from counter [k] on. *)
Definition later_sets (st : Stats Arr) (k : Z) (n : nat)
    : list (list (Epi Arr)) :=
  (fun j => episodes (merged st (rl_sample j))) <$> counters k n.

(** The sampler's mean rewards are [rs], iteration by iteration. *)
Definition mean_rews_are (rs : list Q) : Prop :=
  forall (i : nat) (r : Q), rs !! i = Some r ->
    exists m, mean_rew_of (rl_sample (Z.of_nat i)) = Some m /\ (m == r)%Q.

End Script.

Arguments event : clear implicits.
Arguments Store : clear implicits.
Arguments Vars : clear implicits.

(** Running the statements of the body gives the closed form. *)
Ltac run_script :=
  cbv beta iota zeta delta
    [loop_body prepare checkpoint normalize_obj add_traj_obj in_place
     alloc read write emit bind ret fst snd empty_store
     heap next_ref trace normalize_obs_and_acs];
  repeat (rewrite !lookup_insert_eq;
          cbv beta iota zeta delta
            [default from_option id fst snd heap next_ref trace]);
  rewrite ?insert_insert_eq;
  cbn [max_rew counter_agg_iters stats traj total_epi total_step episodes
       registered add_traj register_epis compute_h_masks add_next_obs
       add_epis new_traj app].

End Mpc.

(** * [example/run_trpo.py] *)
Module Trpo.

Import Data Rew.
Local Open Scope Z_scope.

Section Script.
Context {Arr : Type}.

(** The paths [sampler.sample] returns at its [k]-th call, counted from 0:
    the environment and the policy are external. *)
Variable sample : nat -> list (Epi Arr).

(** The writes of checkpoint files, each with the number of the iteration,
    counted from 1, that made it. *)
Inductive event : Type :=
| EvSave (file : string) (iter : Z).

(** The variables of the script that live across iterations, the number of
    iterations run and what has been written. *)
Record State : Type := mkState {
  total_epi : Z;
  total_step : Z;
  max_rew : Q;
  iters : nat;
  trace : list event
}.

(** Lines 81 to 83. *)
Definition init_state : State := mkState 0 0 (-1000000 # 1) 0%nat [].

(** Lines 85 to 117: one iteration.  [GAEData] is not among the sources:
    [data.num_epi] is taken to be the number of paths. *)
Definition loop_body (s : State) : State :=
  let paths := sample (iters s) in
  let num_epi := Z.of_nat (length paths) in
  let step := foldr Z.add 0 ((fun p => Z.of_nat (length (rews p))) <$> paths) in
  let mean_rew := Rew.np_mean ((fun p => np_sum (rews p)) <$> paths) in
  let k := Z.of_nat (iters s) + 1 in
  let best := exceeds mean_rew (max_rew s) in
  mkState (total_epi s + num_epi) (total_step s + step)
    (if best then new_max mean_rew (max_rew s) else max_rew s)
    (S (iters s))
    (trace s
     ++ (if best then [EvSave "pol_max.pkl" k; EvSave "vf_max.pkl" k;
                       EvSave "optim_vf_max.pkl" k] else [])
     ++ [EvSave "pol_last.pkl" k; EvSave "vf_last.pkl" k;
         EvSave "optim_vf_last.pkl" k]).

(** Lines 84 to 117: [while args.max_episodes > total_epi]. *)
Fixpoint while_loop (fuel : nat) (max_episodes : Z) (s : State)
    : option State :=
  match fuel with
  | O => None
  | S fuel' =>
      if max_episodes >? total_epi s
      then while_loop fuel' max_episodes (loop_body s)
      else Some s
  end.

(** The iterations that wrote the "best" checkpoint of the policy. *)
Definition best_written (tr : list event) : list Z :=
  omap (fun e => match e with
                 | EvSave f k => if String.eqb f "pol_max.pkl" then Some k else None
                 end) tr.

End Script.

End Trpo.

(** * Concrete data for the examples *)
Module Examples.

Import Data ef.
Local Open Scope Q_scope.

(** Scalars for arrays, with exact arithmetic.  The deviation is the mean
    absolute one, which stays rational; the floor is at one millionth. *)
Definition q_mean (l : list Q) : Q :=
  match l with
  | [] => 0
  | _ => foldr Qplus 0 l / inject_Z (Z.of_nat (length l))
  end.

Definition q_dev (l : list Q) : Q :=
  q_mean ((fun x => Qabs (x - q_mean l)) <$> l).

Definition q_floor (x : Q) : Q :=
  if Qle_bool (1 # 1000000) x then x else 1 # 1000000.

#[export] Instance q_ops : ArrayOps Q :=
  {| arr_sub := Qminus; arr_div := Qdiv; np_mean := q_mean;
     np_std := q_dev; floor_eps := q_floor |}.

(** An episode of one step with observation [o], action [a], reward [r]. *)
Definition one_step (o a r : Q) : Epi Q :=
  mkEpi [o] [a] [r] [true] None None.

(** An episode of three steps. *)
Definition three_steps : Epi Q :=
  mkEpi [1; 2; 3] [0; 0; 0] [1; 1; 1] [false; false; true] None None.

(** A sampler whose only episode in iteration [k] has summed reward
    1, 3, 2, 5, 4 for [k] from 0 to 4. *)
Definition scenario_rewards : list Q := [1; 3; 2; 5; 4].

Definition scenario_sample (k : Z) : list (Epi Q) :=
  [one_step 0 0 (nth (Z.to_nat k) scenario_rewards 0)].

(** A sampler that returns the same one-step episode in every iteration. *)
Definition const_sample (k : Z) : list (Epi Q) := [one_step 5 1 2].

(** An initial dataset of two one-step episodes. *)
Definition d_rand : list (Epi Q) := [one_step 1 0 0; one_step 3 1 0].

(** A feed-forward value function over observations of shape [(3,)], and
    an input of shape [(5,)]. *)
Definition sav : Vfunc.BaseSAVfunc unit unit unit :=
  Vfunc.init tt (Vfunc.mkSpace [3%nat]) (Vfunc.mkSpace [2%nat]) tt false false 0.

Definition sav_rnn : Vfunc.BaseSAVfunc unit unit unit :=
  Vfunc.set_hs
    (Vfunc.init tt (Vfunc.mkSpace [3%nat]) (Vfunc.mkSpace [2%nat]) tt true false 0)
    (Some tt).

Definition five : Vfunc.Tensor Z := Vfunc.mkTensor [5%nat] [1; 2; 3; 4; 5]%Z.

End Examples.

(** * Python's built-in errors *)
Module Py.

(** The exceptions indexing, drawing, adding in place and broadcasting
    raise. *)
Inductive error : Type :=
| IndexError
| ValueError
| RuntimeError
| UFuncTypeError.

(** A call returns a value or raises one of them. *)
Inductive res (A : Type) : Type :=
| Returns (a : A)
| Raises (e : error).
Arguments Returns {A} a.
Arguments Raises {A} e.

(** Sequencing: an exception ends the computation. *)
Definition and_then {A B} (r : res A) (k : A -> res B) : res B :=
  match r with
  | Returns a => k a
  | Raises e => Raises e
  end.

End Py.

(** * The functions of [example/run_mpc.py] *)
Module MpcFuncs.

Import Data Rew Py.

Section Noise.
Context {Arr : Type}.

(** numpy's in-place [x += y] on a row: the row after the addition, or
    the error the addition raises (a [UFuncTypeError] when the sum cannot
    be cast to the type of [x], as with a float added to integers). *)
Variable arr_iadd : Arr -> Arr -> res Arr.

(** The array the [k]-th call of [np.random.normal(0, std, shape)]
    returns, counted from 0, for a [std] the call accepts. *)
Variable normal : Q -> nat -> Arr.

(** [np.random.normal(0, std, shape)], the [k]-th call: a negative [std]
    raises [ValueError]. *)
Definition random_normal (std : Q) (k : nat) : res Arr :=
  if Qlt_bool std 0 then Raises ValueError else Returns (normal std k).

(** [epi['obs'] = o], the other fields left alone. *)
Definition set_obs (e : Epi Arr) (o : list Arr) : Epi Arr :=
  {| obs := o; acs := acs e; rews := rews e; dones := dones e;
     next_obs := next_obs e; h_masks := h_masks e |}.

(** The loop of [add_noise_to_init_obs] from the [k]-th draw on:
    [epi['obs'][0] += np.random.normal(...)] for each episode in turn.
    The row is read first (an array without rows raises [IndexError]),
    then the noise is drawn, then it is added in place; the first error
    ends the loop. *)
Fixpoint add_noise_from (std : Q) (k : nat) (epis : list (Epi Arr))
    : res (list (Epi Arr)) :=
  match epis with
  | [] => Returns []
  | epi :: rest =>
      match obs epi with
      | [] => Raises IndexError
      | o :: os =>
          and_then (random_normal std k) (fun noise =>
          and_then (arr_iadd o noise) (fun o' =>
          and_then (add_noise_from std (S k) rest) (fun rest' =>
            Returns (set_obs epi (o' :: os) :: rest'))))
      end
  end.

(** [add_noise_to_init_obs(epis, std)] *)
Definition add_noise_to_init_obs (epis : list (Epi Arr)) (std : Q)
    : res (list (Epi Arr)) :=
  add_noise_from std 0 epis.

End Noise.

Local Open Scope Q_scope.

(** A two-dimensional array of numbers: the size of axis 1 and the rows.
    The entries are rationals and the arithmetic on them is exact:
    rounding, infinities, not-a-number entries and integer types that
    wrap are outside this model, which is about shapes, indices and which
    entries a result is computed from. *)
Record Matrix : Type := mkMatrix {
  ncols : nat;
  rows : list (list Q)
}.

(** Every row has [ncols] entries. *)
Definition well_formed (m : Matrix) : Prop :=
  Forall (fun r => length r = ncols m) (rows m).

(** [m[:, j]]: [IndexError] when axis 1 has no index [j]. *)
Definition column (m : Matrix) (j : nat) : res (list Q) :=
  if (j <? ncols m)%nat then Returns ((fun r => default 0 (r !! j)) <$> rows m)
  else Raises IndexError.

(** [sum(row ** 2)] *)
Definition sum_sq (r : list Q) : Q := foldr Qplus 0 ((fun a => a * a) <$> r).

(** [np.sum(m ** 2, axis=1)] and [torch.sum(m ** 2, dim=1)] *)
Definition sum_sq_rows (m : Matrix) : list Q := sum_sq <$> rows m.

(** [x - y] on one-dimensional arrays: elementwise on equal lengths, a
    single entry against every entry of the other, and otherwise the
    error [e] of the library at hand. *)
Definition broadcast_sub (e : error) (x y : list Q) : res (list Q) :=
  if (length x =? length y)%nat then Returns (zip_with Qminus x y)
  else match x, y with
       | [a], _ => Returns ((fun b => a - b) <$> y)
       | _, [b] => Returns ((fun a => a - b) <$> x)
       | _, _ => Raises e
       end.

(** The two kinds of array [rew_func] tells apart with [isinstance]. *)
Inductive kind : Type :=
| NdArray
| TorchTensor.

(** What [rew_func] returns: one number ([rews[0]], or a tensor without
    dimensions) or a one-dimensional tensor. *)
Inductive rews_out : Type :=
| Scalar (q : Q)
| Vector (v : list Q).

(** [rew_func(next_obs, acs)], both arguments of kind [k]. *)
Definition rew_func (k : kind) (next_obs acs : Matrix) : res rews_out :=
  let index_of_velx := 3%nat in
  match k with
  | NdArray =>
      and_then (column next_obs index_of_velx) (fun velx =>
      and_then (broadcast_sub ValueError velx
                  ((fun s => (1 # 100) * s) <$> sum_sq_rows acs)) (fun rews =>
      match rews with
      | [] => Raises IndexError
      | r :: _ => Returns (Scalar r)
      end))
  | TorchTensor =>
      and_then (column next_obs index_of_velx) (fun velx =>
      and_then (broadcast_sub RuntimeError velx
                  ((fun s => (1 # 100) * s) <$> sum_sq_rows acs)) (fun rews =>
      match rews with
      | [r] => Returns (Scalar r)
      | _ => Returns (Vector rews)
      end))
  end.

End MpcFuncs.

(** * More of [torch.Tensor] *)
Module Torch.

Import Vfunc.

(** [t.numel()]: the product of the sizes. *)
Definition numel {Elem} (t : Tensor Elem) : nat :=
  foldr Nat.mul 1%nat (shape t).

End Torch.

(** * More concrete data *)
Module Cases.

Import Data MpcFuncs.
Local Open Scope Q_scope.

(** One transition of a six-dimensional observation and a two-dimensional
    action. *)
Definition one_obs : Matrix := mkMatrix 6 [[0; 0; 0; 7; 0; 0]].

Definition one_acs : Matrix := mkMatrix 2 [[3; 4]].

(** An observation in an array with three columns only. *)
Definition narrow_obs : Matrix := mkMatrix 3 [[1; 2; 3]].

(** Two episodes, of two steps and of one step. *)
Definition two_epis : list (Epi Q) :=
  [mkEpi [1; 2] [0; 0] [1; 1] [false; true] None None;
   mkEpi [5] [0] [2] [true] None None].

(** A sampler whose only episode earns the reward -1 in every iteration. *)
Definition negative_sample (k : Z) : list (Epi Q) :=
  [mkEpi [0] [0] [-1] [true] None None].

(** Paths for the policy-gradient driver: two one-step paths per call. *)
Definition two_paths (k : nat) : list (Epi Q) :=
  [mkEpi [0] [0] [1] [true] None None; mkEpi [0] [0] [3] [true] None None].

(** A tensor of the shape of the observation space of
    [Examples.sav]. *)
Definition unbatched : Vfunc.Tensor Z := Vfunc.mkTensor [3%nat] [7; 8; 9]%Z.

End Cases.

(** * Properties of [BaseSAVfunc] *)
Module VfuncProps.

Import Vfunc.
Local Open Scope Z_scope.

Section Shapes.
Context {Net Hidden Module_ Elem : Type}.
Implicit Types (self : BaseSAVfunc Net Hidden Module_) (t : Tensor Elem).

Lemma unsqueeze_iter (n : nat) t :
  Nat.iter n unsqueeze0 t = mkTensor (replicate n 1%nat ++ shape t) (data t).
Proof.
  induction n as [|n IH]; simpl.
  - by destruct t.
  - by rewrite IH.
Qed.

Lemma unsqueeze_times_shape (n : Z) t :
  unsqueeze_times n t
  = mkTensor (replicate (Z.to_nat n) 1%nat ++ shape t) (data t).
Proof. apply unsqueeze_iter. Qed.

(** Both checks in one equation: whatever the rank, the result is the
    input under as many leading dimensions of size one as the rank lacks. *)
Lemma check_obs_closed self t :
  _check_obs_shape self t
  = Ok (mkTensor
          (replicate (Z.to_nat (obs_threshold self - rank t)) 1%nat ++ shape t)
          (data t)).
Proof.
  unfold _check_obs_shape, obs_threshold, additional_shape.
  destruct (Z.ltb_spec (rank t) ((if rnn self then 2 else 1)
                                 + space_rank (ob_space self))) as [Hlt|Hge].
  - by rewrite unsqueeze_times_shape.
  - replace (Z.to_nat _) with 0%nat by lia. by destruct t.
Qed.

Lemma check_acs_closed self t :
  _check_acs_shape self t
  = Ok (mkTensor
          (replicate (Z.to_nat (acs_threshold self - rank t)) 1%nat ++ shape t)
          (data t)).
Proof.
  unfold _check_acs_shape, acs_threshold, additional_shape.
  destruct (Z.ltb_spec (rank t) ((if rnn self then 2 else 1)
                                 + space_rank (ac_space self))) as [Hlt|Hge].
  - by rewrite unsqueeze_times_shape.
  - replace (Z.to_nat _) with 0%nat by lia. by destruct t.
Qed.

Lemma rank_padded (n : nat) t :
  rank (mkTensor (replicate n 1%nat ++ shape t) (data t))
  = Z.of_nat n + rank t.
Proof. unfold rank; simpl. rewrite length_app, length_replicate. lia. Qed.

(** C4, as amended: neither check ever fails, and neither compares the
    sizes of the dimensions with the declared space.  On every input the
    call returns the input's elements under the input's own dimensions,
    preceded by one dimension of size one for each rank the input lacks
    (none when the rank suffices). *)
Theorem check_shape_never_fails self t :
  _check_obs_shape self t
  = Ok (mkTensor
          (replicate (Z.to_nat (obs_threshold self - rank t)) 1%nat ++ shape t)
          (data t))
  /\ _check_acs_shape self t
     = Ok (mkTensor
             (replicate (Z.to_nat (acs_threshold self - rank t)) 1%nat ++ shape t)
             (data t)).
Proof. split; [apply check_obs_closed | apply check_acs_closed]. Qed.

(** C9: a tensor whose rank reaches [len(space.shape) + 1] (feed-forward)
    or [+ 2] (recurrent) is returned unchanged; a tensor of lower rank is
    returned with the same elements and leading dimensions of size one
    prepended until its rank equals that threshold; no call raises. *)
Theorem check_shape_cases self t :
  (obs_threshold self <= rank t -> _check_obs_shape self t = Ok t)
  /\ (rank t < obs_threshold self ->
      exists t', _check_obs_shape self t = Ok t'
        /\ data t' = data t
        /\ shape t'
           = replicate (Z.to_nat (obs_threshold self - rank t)) 1%nat ++ shape t
        /\ rank t' = obs_threshold self)
  /\ (exists t', _check_obs_shape self t = Ok t')
  /\ (acs_threshold self <= rank t -> _check_acs_shape self t = Ok t)
  /\ (rank t < acs_threshold self ->
      exists t', _check_acs_shape self t = Ok t'
        /\ data t' = data t
        /\ shape t'
           = replicate (Z.to_nat (acs_threshold self - rank t)) 1%nat ++ shape t
        /\ rank t' = acs_threshold self)
  /\ (exists t', _check_acs_shape self t = Ok t')
  /\ obs_threshold self
     = Z.of_nat (length (space_shape (ob_space self)))
       + (if rnn self then 2 else 1)
  /\ acs_threshold self
     = Z.of_nat (length (space_shape (ac_space self)))
       + (if rnn self then 2 else 1).
Proof.
  repeat split.
  - intros Hge. rewrite check_obs_closed.
    replace (Z.to_nat _) with 0%nat by lia. by destruct t.
  - intros Hlt. eexists. split; [apply check_obs_closed|].
    repeat split; try reflexivity. rewrite rank_padded. lia.
  - eexists. apply check_obs_closed.
  - intros Hge. rewrite check_acs_closed.
    replace (Z.to_nat _) with 0%nat by lia. by destruct t.
  - intros Hlt. eexists. split; [apply check_acs_closed|].
    repeat split; try reflexivity. rewrite rank_padded. lia.
  - eexists. apply check_acs_closed.
  - unfold obs_threshold, additional_shape, space_rank. lia.
  - unfold acs_threshold, additional_shape, space_rank. lia.
Qed.

(** C10: without [rnn], [reset] leaves the object as it is, [hs]
    included; with [rnn], it sets [hs] to [None] and leaves every other
    attribute as it is. *)
Theorem reset_frame self :
  (rnn self = false -> reset self = self)
  /\ (rnn self = true ->
      hs (reset self) = None
      /\ nn_module (reset self) = nn_module self
      /\ ob_space (reset self) = ob_space self
      /\ ac_space (reset self) = ac_space self
      /\ net (reset self) = net self
      /\ rnn (reset self) = rnn self
      /\ data_parallel (reset self) = data_parallel self
      /\ dp_net (reset self) = dp_net self
      /\ dp_run (reset self) = dp_run self)
  /\ (forall (m0 : Module_) o a (n : Net) dp pd,
        reset (init (Hidden := Hidden) m0 o a n false dp pd)
        = init m0 o a n false dp pd).
Proof.
  unfold reset. split; [|split].
  - by intros ->.
  - intros H. rewrite H. simpl. by repeat split.
  - reflexivity.
Qed.

End Shapes.

(** A rank-1 input of five elements for a space of shape [(3,)]: the
    dimensions disagree, and the call returns the input under a new leading
    dimension instead of failing. *)
Lemma check_obs_inserts_dimension :
  space_shape (ob_space Examples.sav) = [3%nat]
  /\ shape Examples.five = [5%nat]
  /\ _check_obs_shape Examples.sav Examples.five
     = Ok (mkTensor [1%nat; 5%nat] [1; 2; 3; 4; 5]).
Proof. repeat split. Qed.

Lemma check_shape_cases_witness :
  rank Examples.five < obs_threshold Examples.sav
  /\ _check_obs_shape Examples.sav Examples.five
     = Ok (mkTensor [1%nat; 5%nat] [1; 2; 3; 4; 5]).
Proof.
  split; [reflexivity|].
  destruct (check_shape_cases Examples.sav Examples.five)
    as (_ & H & _).
  destruct (H eq_refl) as (t' & -> & Hd & Hs & _).
  destruct t' as [sh d]; simpl in *. by subst.
Defined.

Lemma reset_frame_witness :
  rnn Examples.sav = false /\ reset Examples.sav = Examples.sav
  /\ rnn Examples.sav_rnn = true /\ hs Examples.sav_rnn = Some tt
  /\ hs (reset Examples.sav_rnn) = None.
Proof.
  split; [reflexivity|].
  split; [apply (proj1 (reset_frame Examples.sav)); reflexivity|].
  split; [reflexivity|]. split; [reflexivity|].
  apply (proj1 (proj2 (reset_frame Examples.sav_rnn))). reflexivity.
Defined.

End VfuncProps.

(** * Properties of the episode transforms *)
Module EfProps.

Import Data ef.
Local Open Scope Z_scope.

Section Transforms.
Context {Arr : Type} `{!ArrayOps Arr}.
Implicit Types (e : Epi Arr) (t : Traj Arr) (o : list Arr).

Lemma shift_obs_length o : length (shift_obs o) = length o.
Proof. unfold shift_obs. rewrite length_app, !length_drop. lia. Qed.

Lemma shift_obs_inner o (i : nat) :
  (S i < length o)%nat -> shift_obs o !! i = o !! S i.
Proof.
  intros Hi. unfold shift_obs.
  rewrite lookup_app_l by (rewrite length_drop; lia).
  by rewrite lookup_drop.
Qed.

Lemma shift_obs_final o (n : nat) :
  length o = S n -> shift_obs o !! n = o !! n.
Proof.
  intros Hn. unfold shift_obs.
  rewrite lookup_app_r by (rewrite length_drop; lia).
  rewrite lookup_drop, length_drop. f_equal. lia.
Qed.

(** C6: for every episode of a trajectory, [add_next_obs] adds a
    [next_obs] sequence as long as [obs], whose entry at each timestep
    but the last is the next observation and whose last entry is the last
    observation; [obs] itself is left as it was. *)
Theorem add_next_obs_shifts t (k : nat) e :
  episodes t !! k = Some e ->
  exists e' nx,
    episodes (add_next_obs t) !! k = Some e'
    /\ next_obs e' = Some nx
    /\ obs e' = obs e
    /\ length nx = length (obs e)
    /\ (forall i : nat, (S i < length (obs e))%nat -> nx !! i = obs e !! S i)
    /\ (forall n : nat, length (obs e) = S n ->
          nx !! n = obs e !! n /\ is_Some (nx !! n)).
Proof.
  intros Hk. exists (add_next_obs_epi e), (shift_obs (obs e)).
  split. { unfold add_next_obs; simpl. by rewrite list_lookup_fmap, Hk. }
  repeat split.
  - apply shift_obs_length.
  - apply shift_obs_inner.
  - by apply shift_obs_final.
  - rewrite shift_obs_final by done. apply lookup_lt_is_Some. lia.
Qed.

Lemma horizon_mask_length (h : Z) (L : nat) : length (horizon_mask h L) = L.
Proof. unfold horizon_mask. by rewrite length_fmap, length_seq. Qed.

Lemma horizon_mask_lookup (h : Z) (L i : nat) :
  (i < L)%nat ->
  horizon_mask h L !! i
  = Some (if Z.of_nat i + h <=? Z.of_nat L then 1 else 0).
Proof.
  intros Hi. unfold horizon_mask.
  by rewrite list_lookup_fmap, lookup_seq_lt.
Qed.

Lemma horizon_mask_closed (h : Z) (L : nat) :
  horizon_mask h L = replicate (ones h L) 1 ++ replicate (L - ones h L) 0.
Proof.
  apply list_eq; intros i.
  destruct (decide (i < L)%nat) as [Hi|Hi].
  - rewrite horizon_mask_lookup by done.
    destruct (decide (i < ones h L)%nat) as [Hn|Hn].
    + rewrite lookup_app_l by (rewrite length_replicate; lia).
      rewrite lookup_replicate_2 by done.
      unfold ones in Hn. destruct (Z.leb_spec (Z.of_nat i + h) (Z.of_nat L)); [done|lia].
    + rewrite lookup_app_r by (rewrite length_replicate; lia).
      rewrite length_replicate.
      rewrite lookup_replicate_2 by (unfold ones in *; lia).
      unfold ones in Hn. destruct (Z.leb_spec (Z.of_nat i + h) (Z.of_nat L)); [lia|done].
  - rewrite !lookup_ge_None_2; [done| |].
    + rewrite length_app, !length_replicate. unfold ones. lia.
    + rewrite horizon_mask_length. lia.
Qed.

Lemma mask_sum_ones (n m : nat) :
  mask_sum (replicate n 1 ++ replicate m 0) = Z.of_nat n.
Proof.
  unfold mask_sum. induction n as [|n IH].
  - simpl. induction m as [|m IHm]; simpl; lia.
  - change (foldr Z.add 0 (replicate (S n) 1 ++ replicate m 0))
      with (1 + foldr Z.add 0 (replicate n 1 ++ replicate m 0)).
    rewrite IH. lia.
Qed.

Lemma ones_valid (h : Z) (L : nat) :
  1 <= h -> ones h L = Z.to_nat (Z.max 0 (Z.of_nat L - h + 1)).
Proof. intros Hh. unfold ones. lia. Qed.

(** A horizon below 1 is rejected, whatever the trajectory. *)
Lemma compute_horizon_masks_rejects (h : Z) t :
  h < 1 -> compute_horizon_masks h t = Raise InvalidArgumentError.
Proof.
  intros Hh. unfold compute_horizon_masks, valid_horizon.
  by destruct (Z.leb_spec 1 h); [lia|].
Qed.

(** C5: for every horizon [h] of the valid domain and every episode of
    length [L] of a trajectory, [compute_horizon_masks(h)] gives timestep
    [i] mask 1 if [i + h <= L] and 0 otherwise, so the mask is exactly
    [max 0 (L - h + 1)] ones followed by zeros, and an episode shorter
    than [h] gets a mask of zeros only. *)
Theorem compute_horizon_masks_ones (h : Z) t (k : nat) e :
  1 <= h -> episodes t !! k = Some e ->
  exists t' e' m,
    compute_horizon_masks h t = Ok t'
    /\ episodes t' !! k = Some e'
    /\ h_masks e' = Some m
    /\ length m = epi_len e
    /\ (forall i : nat, (i < epi_len e)%nat ->
          m !! i
          = Some (if Z.of_nat i + h <=? Z.of_nat (epi_len e) then 1 else 0))
    /\ m = replicate (Z.to_nat (Z.max 0 (Z.of_nat (epi_len e) - h + 1))) 1
           ++ replicate
                (epi_len e
                 - Z.to_nat (Z.max 0 (Z.of_nat (epi_len e) - h + 1))) 0
    /\ mask_sum m = Z.max 0 (Z.of_nat (epi_len e) - h + 1)
    /\ (Z.of_nat (epi_len e) < h -> m = replicate (epi_len e) 0).
Proof.
  intros Hh Hk.
  exists (compute_h_masks h t), (compute_h_masks_epi h e),
    (horizon_mask h (epi_len e)).
  split.
  { unfold compute_horizon_masks, valid_horizon.
    by destruct (Z.leb_spec 1 h); [|lia]. }
  split. { unfold compute_h_masks; simpl. by rewrite list_lookup_fmap, Hk. }
  split; [done|]. split; [apply horizon_mask_length|].
  split; [intros i Hi; by apply horizon_mask_lookup|].
  rewrite horizon_mask_closed, ones_valid by done.
  split; [done|]. split.
  - rewrite mask_sum_ones. lia.
  - intros Hlt. replace (Z.to_nat _) with 0%nat by lia.
    simpl. f_equal. lia.
Qed.

End Transforms.

(** The spec's scenario: episodes of lengths 5, 3 and 7 under horizon 4
    get masks that sum to 2, 0 and 4. *)
Lemma horizon_mask_scenario :
  (fun L => mask_sum (horizon_mask 4 L)) <$> [5%nat; 3%nat; 7%nat] = [2; 0; 4].
Proof. reflexivity. Qed.

Lemma add_next_obs_shifts_witness :
  exists e' nx,
    episodes (add_next_obs (mkTraj [Examples.three_steps] false)) !! 0%nat
    = Some e'
    /\ next_obs e' = Some nx
    /\ nx !! 2%nat = obs Examples.three_steps !! 2%nat.
Proof.
  destruct (add_next_obs_shifts (mkTraj [Examples.three_steps] false) 0
              Examples.three_steps eq_refl)
    as (e' & nx & H1 & H2 & _ & _ & _ & H3).
  exists e', nx. repeat split; [done|done|].
  apply (H3 2%nat eq_refl).
Defined.

Lemma compute_horizon_masks_ones_witness :
  (1 <= 2)
  /\ exists t' e',
       compute_horizon_masks 2 (mkTraj [Examples.three_steps] false) = Ok t'
       /\ episodes t' !! 0%nat = Some e'
       /\ h_masks e' = Some [1; 1; 0].
Proof.
  split; [lia|].
  destruct (compute_horizon_masks_ones 2 (mkTraj [Examples.three_steps] false)
              0 Examples.three_steps ltac:(lia) eq_refl)
    as (t' & e' & m & Ht & He & Hm & _ & _ & Hc & _).
  exists t', e'. split; [exact Ht|]. split; [exact He|].
  rewrite Hm, Hc. reflexivity.
Defined.

End EfProps.

(** * Properties of the advantage estimator *)
Module GaeProps.

Import Data Gae.
Local Open Scope Q_scope.

Section Estimator.
Context {Arr : Type}.
Variable V : Arr -> Q.
Variable v_end : Epi Arr -> Q.


End Estimator.


End GaeProps.

(** * Properties of the train loop of [run_mpc.py] *)
Module MpcProps.

Import Data ef Rew Mpc Examples.
Local Open Scope Z_scope.

Section Loop.
Context {Arr : Type} `{!ArrayOps Arr}.
Variable default_horizon : Z.
Variable rl_sample : Z -> list (Epi Arr).

Local Abbreviation body := (loop_body default_horizon rl_sample).
Local Abbreviation after := (after_body default_horizon rl_sample).
Local Abbreviation iter := (iterate default_horizon rl_sample).
Local Abbreviation loop := (while_loop default_horizon rl_sample).
Local Abbreviation run := (run_mpc default_horizon rl_sample).
Local Abbreviation proc := (processed default_horizon).
Local Abbreviation deriv := (derived default_horizon).

Implicit Types (v : Vars Arr) (s : Store Arr) (epis : list (Epi Arr)).

Lemma loop_body_eq v s : body v s = after v s.
Proof.
  destruct s as [hp nr tr].
  unfold after_body, body_events, save_events, merged, mean_rew_of,
    processed, derived.
  run_script.
  destruct (exceeds _ _);
    cbn [max_rew counter_agg_iters stats traj total_epi total_step];
    rewrite <- ?app_assoc; reflexivity.
Qed.

Lemma prepare_eq epis :
  prepare default_horizon epis empty_store = after_prepare default_horizon epis.
Proof.
  unfold after_prepare, processed, derived.
  run_script. reflexivity.
Qed.

Lemma iterate_S (n : nat) v s :
  iter (S n) v s = iter n (fst (after v s)) (snd (after v s)).
Proof. simpl. rewrite loop_body_eq. reflexivity. Qed.

Lemma iterate_counter (n : nat) : forall v s,
  counter_agg_iters (fst (iter n v s)) = counter_agg_iters v + Z.of_nat n.
Proof.
  induction n as [|n IH]; intros v s.
  - simpl. lia.
  - rewrite iterate_S, IH. simpl. lia.
Qed.

Lemma iterate_stats (n : nat) : forall v s, stats (fst (iter n v s)) = stats v.
Proof.
  induction n as [|n IH]; intros v s; [done|].
  by rewrite iterate_S, IH.
Qed.

(** With fuel to spare the loop runs its body [max 0 (N - counter)]
    times and exits. *)
Lemma while_loop_iterate (N : Z) (n : nat) : forall v s (fuel : nat),
  Z.of_nat n = Z.max 0 (N - counter_agg_iters v) ->
  (n < fuel)%nat ->
  loop fuel N v s = Some (iter n v s).
Proof.
  induction n as [|n IH]; intros v s fuel Hn Hf;
    (destruct fuel as [|fuel]; [lia|]).
  - simpl. destruct (Z.gtb_spec N (counter_agg_iters v)); [lia|done].
  - cbn [while_loop].
    destruct (Z.gtb_spec N (counter_agg_iters v)); [|lia].
    rewrite iterate_S, loop_body_eq.
    destruct (after v s) as [v' s'] eqn:Ha.
    apply IH; [|lia].
    assert (counter_agg_iters v' = counter_agg_iters v + 1)
      by (by injection Ha as <- _).
    simpl. lia.
Qed.

Lemma counters_S (k : Z) (n : nat) :
  counters k (S n) = k :: counters (k + 1) n.
Proof.
  unfold counters. cbn [seq fmap list_fmap]. f_equal; [f_equal; lia|].
  rewrite <- fmap_S_seq, <- list_fmap_compose.
  apply list_fmap_ext. intros _ i _. simpl. lia.
Qed.

(** ** What the iterations add to the trace *)

Lemma save_events_best (b : bool) (k : Z) :
  best_written (save_events (Arr := Arr) b k) = if b then [k + 1] else [].
Proof. by destruct b. Qed.

Lemma save_events_last (b : bool) (k : Z) :
  last_written (save_events (Arr := Arr) b k) = [k + 1].
Proof. by destruct b. Qed.

Lemma body_train v s :
  train_sets (body_events default_horizon rl_sample v s)
  = [episodes (default new_traj (heap s !! traj v))].
Proof. unfold body_events, train_sets. simpl. by destruct (exceeds _ _). Qed.

Lemma body_applied v s :
  stats_applied (body_events default_horizon rl_sample v s)
  = [(stats v, deriv (rl_sample (counter_agg_iters v)))].
Proof. unfold body_events, stats_applied. simpl. by destruct (exceeds _ _). Qed.

Lemma body_planned v s :
  stats_planned (body_events default_horizon rl_sample v s) = [stats v].
Proof. unfold body_events, stats_planned. simpl. by destruct (exceeds _ _). Qed.

Lemma body_computed v s :
  stats_computed (body_events default_horizon rl_sample v s) = [].
Proof. unfold body_events, stats_computed. simpl. by destruct (exceeds _ _). Qed.

Lemma body_best v s :
  best_written (body_events default_horizon rl_sample v s)
  = if exceeds (mean_rew_of (rl_sample (counter_agg_iters v))) (max_rew v)
    then [counter_agg_iters v + 1] else [].
Proof.
  unfold body_events, best_written, written. rewrite omap_app. simpl.
  apply save_events_best.
Qed.

Lemma body_last v s :
  last_written (body_events default_horizon rl_sample v s)
  = [counter_agg_iters v + 1].
Proof.
  unfold body_events, last_written, written. rewrite omap_app. simpl.
  apply save_events_last.
Qed.

(** The datasets trained on: what [traj] names at the start, then, from
    the second iteration on, the episodes of the iteration before, twice. *)
Lemma iterate_train (n : nat) : forall v s,
  train_sets (trace (snd (iter n v s)))
  = train_sets (trace s)
    ++ match n with
       | O => []
       | S m => episodes (default new_traj (heap s !! traj v))
                :: later_sets default_horizon rl_sample (stats v)
                     (counter_agg_iters v) m
       end.
Proof.
  induction n as [|n IH]; intros v s.
  - simpl. by rewrite app_nil_r.
  - rewrite iterate_S, IH. cbn [after_body fst snd trace heap traj stats
      counter_agg_iters].
    unfold train_sets at 1. rewrite omap_app. fold (train_sets (trace s)).
    fold (train_sets (body_events default_horizon rl_sample v s)).
    rewrite body_train, <- app_assoc. f_equal. simpl. f_equal.
    destruct n as [|m]; [done|].
    rewrite lookup_insert_eq. unfold later_sets. by rewrite counters_S.
Qed.

Lemma iterate_applied (n : nat) : forall v s,
  stats_applied (trace (snd (iter n v s)))
  = stats_applied (trace s)
    ++ ((fun k => (stats v, deriv (rl_sample k)))
          <$> counters (counter_agg_iters v) n).
Proof.
  induction n as [|n IH]; intros v s.
  - simpl. by rewrite app_nil_r.
  - rewrite iterate_S, IH, counters_S.
    cbn [after_body fst snd trace stats counter_agg_iters].
    unfold stats_applied at 1. rewrite omap_app.
    fold (stats_applied (trace s)).
    fold (stats_applied (body_events default_horizon rl_sample v s)).
    by rewrite body_applied, <- app_assoc.
Qed.

Lemma iterate_planned (n : nat) : forall v s,
  stats_planned (trace (snd (iter n v s)))
  = stats_planned (trace s) ++ replicate n (stats v).
Proof.
  induction n as [|n IH]; intros v s.
  - simpl. by rewrite app_nil_r.
  - rewrite iterate_S, IH.
    cbn [after_body fst snd trace stats counter_agg_iters].
    unfold stats_planned at 1. rewrite omap_app.
    fold (stats_planned (trace s)).
    fold (stats_planned (body_events default_horizon rl_sample v s)).
    by rewrite body_planned, <- app_assoc.
Qed.

Lemma iterate_computed (n : nat) : forall v s,
  stats_computed (trace (snd (iter n v s))) = stats_computed (trace s).
Proof.
  induction n as [|n IH]; intros v s; [done|].
  rewrite iterate_S, IH.
  cbn [after_body fst snd trace].
  unfold stats_computed at 1. rewrite omap_app.
  fold (stats_computed (trace s)).
  fold (stats_computed (body_events default_horizon rl_sample v s)).
  by rewrite body_computed, app_nil_r.
Qed.

Lemma iterate_last (n : nat) : forall v s,
  last_written (trace (snd (iter n v s)))
  = last_written (trace s)
    ++ ((fun k => k + 1) <$> counters (counter_agg_iters v) n).
Proof.
  induction n as [|n IH]; intros v s.
  - simpl. by rewrite app_nil_r.
  - rewrite iterate_S, IH, counters_S.
    cbn [after_body fst snd trace stats counter_agg_iters].
    unfold last_written at 1, written. rewrite omap_app.
    fold (written "dm_last.pkl" (trace s)).
    fold (written "dm_last.pkl" (body_events default_horizon rl_sample v s)).
    fold (last_written (trace s)).
    fold (last_written (body_events default_horizon rl_sample v s)).
    by rewrite body_last, <- app_assoc.
Qed.

Lemma iterate_best (n : nat) : forall v s,
  best_written (trace (snd (iter n v s)))
  = best_written (trace s)
    ++ best_iters (max_rew v) (counter_agg_iters v)
         ((fun k => mean_rew_of (rl_sample k))
            <$> counters (counter_agg_iters v) n).
Proof.
  induction n as [|n IH]; intros v s.
  - simpl. by rewrite app_nil_r.
  - rewrite iterate_S, IH, counters_S.
    cbn [after_body fst snd trace stats counter_agg_iters max_rew].
    unfold best_written at 1, written. rewrite omap_app.
    fold (written "dm_max.pkl" (trace s)).
    fold (written "dm_max.pkl" (body_events default_horizon rl_sample v s)).
    fold (best_written (trace s)).
    fold (best_written (body_events default_horizon rl_sample v s)).
    rewrite body_best, <- app_assoc. f_equal.
    cbn [fmap list_fmap best_iters].
    by destruct (exceeds _ _).
Qed.

(** ** The whole run *)

Lemma run_eq (N : Z) epis (fuel : nat) :
  (Z.to_nat N < fuel)%nat ->
  run fuel N epis
  = Some (iter (Z.to_nat N) (fst (after_prepare default_horizon epis))
            (snd (after_prepare default_horizon epis))).
Proof.
  intros Hf. unfold run_mpc. rewrite prepare_eq.
  unfold after_prepare. cbn [fst snd].
  apply while_loop_iterate; [simpl; lia|done].
Qed.

Lemma counters_length (k : Z) (n : nat) : length (counters k n) = n.
Proof. unfold counters. by rewrite length_fmap, length_seq. Qed.

(** The datasets a run trains on: the initial one in the first iteration
    and, in each later iteration, only the episodes sampled in the
    iteration before, twice. *)
Lemma run_train_sets (N : Z) epis v s :
  run (S (Z.to_nat N)) N epis = Some (v, s) ->
  train_sets (trace s)
  = match Z.to_nat N with
    | O => []
    | S m => proc (compute_stats (deriv epis)) epis
             :: later_sets default_horizon rl_sample
                  (compute_stats (deriv epis)) 0 m
    end.
Proof.
  rewrite run_eq by lia. intros [= Hr].
  apply (f_equal (fun r => train_sets (trace (snd r)))) in Hr.
  cbn [snd] in Hr. rewrite <- Hr, iterate_train.
  unfold after_prepare. cbn [fst snd trace heap traj stats counter_agg_iters].
  destruct (Z.to_nat N) as [|m]; [done|].
  by rewrite lookup_insert_eq.
Qed.

(** C8: the loop exits after exactly [num_aggregation_iters] executions
    of its body (none when that number is negative), whatever the sampler
    returns and whatever the rewards are. *)
Theorem loop_runs_fixed_count (N : Z) epis :
  exists v s,
    run (S (Z.to_nat N)) N epis = Some (v, s)
    /\ (forall fuel : nat, (Z.to_nat N < fuel)%nat ->
          run fuel N epis = Some (v, s))
    /\ (v, s) = iter (Z.to_nat N) (fst (after_prepare default_horizon epis))
                  (snd (after_prepare default_horizon epis))
    /\ counter_agg_iters v = Z.max 0 N
    /\ (0 <= N -> counter_agg_iters v = N)
    /\ (N >? counter_agg_iters v) = false
    /\ length (train_sets (trace s)) = Z.to_nat N
    /\ last_written (trace s) = (fun k => k + 1) <$> counters 0 (Z.to_nat N).
Proof.
  destruct (iter (Z.to_nat N) (fst (after_prepare default_horizon epis))
              (snd (after_prepare default_horizon epis))) as [v s] eqn:Hi.
  exists v, s.
  assert (Hrun : forall fuel : nat, (Z.to_nat N < fuel)%nat ->
                   run fuel N epis = Some (v, s)).
  { intros fuel Hf. by rewrite run_eq, Hi. }
  assert (Hc : counter_agg_iters v = Z.max 0 N).
  { change v with (fst (v, s)). rewrite <- Hi, iterate_counter. simpl. lia. }
  split; [apply Hrun; lia|]. split; [exact Hrun|]. split; [done|].
  split; [done|]. split; [lia|].
  split. { destruct (Z.gtb_spec N (counter_agg_iters v)); [lia|done]. }
  split.
  - rewrite (run_train_sets N epis v s) by (apply Hrun; lia).
    destruct (Z.to_nat N) as [|m]; [done|].
    unfold later_sets. simpl. by rewrite length_fmap, counters_length.
  - change s with (snd (v, s)). rewrite <- Hi, iterate_last. done.
Qed.

(** C2: the statistics are computed once, from the initial dataset; the
    planning policy and the normalization of every iteration get those
    same statistics; with statistics given, [normalize_obs_and_acs]
    computes none and maps every observation and action [x] to
    [(x - mean) / std]. *)
Theorem stats_computed_once (N : Z) epis :
  exists v s,
    run (S (Z.to_nat N)) N epis = Some (v, s)
    /\ stats_computed (trace s) = [deriv epis]
    /\ stats v = compute_stats (deriv epis)
    /\ stats_applied (trace s)
       = (compute_stats (deriv epis), deriv epis)
         :: ((fun k => (compute_stats (deriv epis), deriv (rl_sample k)))
               <$> counters 0 (Z.to_nat N))
    /\ stats_planned (trace s)
       = replicate (Z.to_nat N) (compute_stats (deriv epis))
    /\ (forall (t : Traj Arr) (st : Stats Arr),
          normalize_obs_and_acs t (Some st)
          = (mkTraj (normalize_epi st <$> episodes t) (registered t), st))
    /\ (forall (l : ref) (st : Stats Arr) (s0 : Store Arr),
          stats_computed (trace (snd (normalize_obj l (Some st) s0)))
          = stats_computed (trace s0))
    /\ (forall (st : Stats Arr) (e : Epi Arr),
          obs (normalize_epi st e)
          = (fun x => arr_div (arr_sub x (mean_obs st)) (std_obs st)) <$> obs e
          /\ acs (normalize_epi st e)
             = (fun x => arr_div (arr_sub x (mean_acs st)) (std_acs st))
                 <$> acs e).
Proof.
  destruct (iter (Z.to_nat N) (fst (after_prepare default_horizon epis))
              (snd (after_prepare default_horizon epis))) as [v s] eqn:Hi.
  exists v, s.
  split; [by rewrite run_eq, Hi by lia|].
  split. { change s with (snd (v, s)). by rewrite <- Hi, iterate_computed. }
  split. { change v with (fst (v, s)). by rewrite <- Hi, iterate_stats. }
  split. { change s with (snd (v, s)). by rewrite <- Hi, iterate_applied. }
  split. { change s with (snd (v, s)). by rewrite <- Hi, iterate_planned. }
  split; [done|]. split; [|done].
  intros l st s0. unfold normalize_obj, bind, read, ret, emit, write. simpl.
  unfold stats_computed. rewrite omap_app. simpl. by rewrite app_nil_r.
Qed.

End Loop.

(** ** The order on rewards *)

Lemma Qlt_bool_iff (x y : Q) : Qlt_bool x y = true <-> (x < y)%Q.
Proof. unfold Qlt_bool, Qlt. apply Z.ltb_lt. Qed.

Lemma Qlt_bool_proper (x x' y y' : Q) :
  (x == x')%Q -> (y == y')%Q -> Qlt_bool x y = Qlt_bool x' y'.
Proof.
  intros Hx Hy. apply eq_true_iff_eq.
  rewrite !Qlt_bool_iff, Hx, Hy. done.
Qed.

Lemma best_iters_proper (ms ms' : list (option Q)) :
  Forall2 same_mean ms ms' ->
  forall (mx mx' : Q) (k : Z), (mx == mx')%Q ->
    best_iters mx k ms = best_iters mx' k ms'.
Proof.
  induction 1 as [|a b ms ms' Hab _ IH]; intros mx mx' k Hmx; [done|].
  cbn [best_iters].
  destruct a as [x|], b as [y|]; simpl in Hab; try done.
  - cbn [exceeds new_max]. rewrite (Qlt_bool_proper mx mx' x y) by done.
    destruct (Qlt_bool mx' y); [f_equal|]; by apply IH.
  - cbn [exceeds]. by apply IH.
Qed.

Section Scenario.
Context {Arr : Type} `{!ArrayOps Arr}.
Variable default_horizon : Z.
Variable rl_sample : Z -> list (Epi Arr).

(** C3, as amended: over five iterations whose mean episode rewards are
    1, 3, 2, 5, 4 the "best" checkpoint is written at iterations 1, 2 and
    4 and at no other, the first mean reward exceeding the initial
    [max_rew]; the "latest" one is written at every iteration. *)
Theorem best_checkpoint_scenario (epis : list (Epi Arr)) :
  mean_rews_are rl_sample [1; 3; 2; 5; 4]%Q ->
  exists v s,
    run_mpc default_horizon rl_sample 6 5 epis = Some (v, s)
    /\ best_written (trace s) = [1; 2; 4]
    /\ last_written (trace s) = [1; 2; 3; 4; 5].
Proof.
  intros Hm.
  destruct (Hm 0%nat _ eq_refl) as (m0 & E0 & Q0).
  destruct (Hm 1%nat _ eq_refl) as (m1 & E1 & Q1).
  destruct (Hm 2%nat _ eq_refl) as (m2 & E2 & Q2).
  destruct (Hm 3%nat _ eq_refl) as (m3 & E3 & Q3).
  destruct (Hm 4%nat _ eq_refl) as (m4 & E4 & Q4).
  change (Z.of_nat 0) with 0 in E0. change (Z.of_nat 1) with 1 in E1.
  change (Z.of_nat 2) with 2 in E2. change (Z.of_nat 3) with 3 in E3.
  change (Z.of_nat 4) with 4 in E4.
  destruct (iterate default_horizon rl_sample 5
              (fst (after_prepare default_horizon epis))
              (snd (after_prepare default_horizon epis))) as [v s] eqn:Hi.
  exists v, s.
  split. { rewrite (run_eq default_horizon rl_sample 5 epis 6) by lia.
           exact (f_equal Some Hi). }
  change s with (snd (v, s)). rewrite <- Hi. split.
  - rewrite iterate_best.
    cbn [after_prepare fst snd trace max_rew counter_agg_iters best_written
         written omap list_omap app].
    change (counters 0 5) with [0; 1; 2; 3; 4].
    cbn [fmap list_fmap]. rewrite E0, E1, E2, E3, E4.
    transitivity
      (best_iters (-1 # 1000000) 0 [Some 1; Some 3; Some 2; Some 5; Some 4]%Q);
      [|reflexivity].
    apply best_iters_proper; [|done].
    repeat constructor; done.
  - rewrite iterate_last. reflexivity.
Qed.

End Scenario.

(** The scenario's rewards with one episode per iteration: the "best"
    checkpoint is written at iteration 1 too. *)
Lemma best_written_at_first_iteration :
  (fun r => best_written (trace (snd r)))
    <$> run_mpc 4 Examples.scenario_sample 6 5 Examples.d_rand
  = Some [1; 2; 4].
Proof. vm_compute. reflexivity. Qed.

Lemma best_checkpoint_scenario_witness :
  mean_rews_are Examples.scenario_sample [1; 3; 2; 5; 4]%Q
  /\ exists v s,
       run_mpc 4 Examples.scenario_sample 6 5 Examples.d_rand = Some (v, s)
       /\ best_written (trace s) = [1; 2; 4]
       /\ last_written (trace s) = [1; 2; 3; 4; 5].
Proof.
  assert (H : mean_rews_are Examples.scenario_sample [1; 3; 2; 5; 4]%Q).
  { intros i r Hi.
    do 5 (destruct i as [|i];
          [injection Hi as <-; eexists; split; [reflexivity|reflexivity]|]).
    discriminate Hi. }
  split; [exact H|].
  exact (best_checkpoint_scenario 4 Examples.scenario_sample Examples.d_rand H).
Defined.

(** C1 fails on the code: with two iterations, an initial dataset of two
    episodes and one new episode per iteration, the second iteration
    trains on the first iteration's episode (reward 2) twice and on no
    episode of the initial dataset (rewards 0); the accumulated dataset
    would hold three episodes. *)
Theorem second_iteration_drops_initial_data :
  (fun r => train_sets (trace (snd r)))
    <$> run_mpc 4 Examples.const_sample 3 2 Examples.d_rand
  = Some [processed 4 (compute_stats (derived 4 Examples.d_rand))
            Examples.d_rand;
          processed 4 (compute_stats (derived 4 Examples.d_rand))
            (Examples.const_sample 0)
          ++ processed 4 (compute_stats (derived 4 Examples.d_rand))
               (Examples.const_sample 0)]
  /\ length (processed 4 (compute_stats (derived 4 Examples.d_rand))
               (Examples.const_sample 0)
             ++ processed 4 (compute_stats (derived 4 Examples.d_rand))
                  (Examples.const_sample 0)) = 2%nat
  /\ length (processed 4 (compute_stats (derived 4 Examples.d_rand))
               Examples.d_rand
             ++ processed 4 (compute_stats (derived 4 Examples.d_rand))
                  (Examples.const_sample 0)) = 3%nat
  /\ (rews <$> (processed 4 (compute_stats (derived 4 Examples.d_rand))
                  (Examples.const_sample 0)
                ++ processed 4 (compute_stats (derived 4 Examples.d_rand))
                     (Examples.const_sample 0)))
     = [[2%Q]; [2%Q]]
  /\ (rews <$> processed 4 (compute_stats (derived 4 Examples.d_rand))
                 Examples.d_rand)
     = [[0%Q]; [0%Q]].
Proof.
  split; [vm_compute; reflexivity|].
  split; [reflexivity|]. split; [reflexivity|].
  split; reflexivity.
Qed.

Lemma loop_runs_fixed_count_witness :
  (0 <= 2)
  /\ exists v s,
       run_mpc 4 Examples.const_sample 3 2 Examples.d_rand = Some (v, s)
       /\ counter_agg_iters v = 2.
Proof.
  split; [lia|].
  destruct (loop_runs_fixed_count 4 Examples.const_sample 2 Examples.d_rand)
    as (v & s & Hr & _ & _ & _ & Hc & _).
  exists v, s. split; [exact Hr|]. apply Hc. lia.
Defined.

End MpcProps.

(** * The checkpoints of [run_trpo.py] *)
Module TrpoProps.

Import Data Rew Trpo.
Local Open Scope Z_scope.

(** The paths of the scenario: one path per call, with summed rewards
    1, 3, 2, 5, 4. *)
Lemma trpo_scenario_best_written :
  (fun s => (best_written (trace s), iters s))
    <$> while_loop (fun k => Examples.scenario_sample (Z.of_nat k)) 6 5
          init_state
  = Some ([1; 2; 4], 5%nat).
Proof. vm_compute. reflexivity. Qed.

End TrpoProps.

(** * More properties of [BaseSAVfunc] *)
Module VfuncExtra.

Import Vfunc Torch.
Local Open Scope Z_scope.

Section Shapes.
Context {Net Hidden Module_ Elem : Type}.
Implicit Types (self : BaseSAVfunc Net Hidden Module_) (t : Tensor Elem).

Lemma padded_fixed (thr : Z) t :
  mkTensor
    (replicate
       (Z.to_nat
          (thr - rank (mkTensor (replicate (Z.to_nat (thr - rank t)) 1%nat
                                  ++ shape t) (data t))))
       1%nat
     ++ (replicate (Z.to_nat (thr - rank t)) 1%nat ++ shape t))
    (data t)
  = mkTensor (replicate (Z.to_nat (thr - rank t)) 1%nat ++ shape t) (data t).
Proof.
  rewrite VfuncProps.rank_padded.
  replace (Z.to_nat (thr - _)) with 0%nat by lia. reflexivity.
Qed.

(** X1: the shape checks are idempotent: what a check returns passes the
    same check unchanged. *)
Theorem check_shape_idempotent self t t' :
  (_check_obs_shape self t = Ok t' -> _check_obs_shape self t' = Ok t')
  /\ (_check_acs_shape self t = Ok t' -> _check_acs_shape self t' = Ok t').
Proof.
  split; intros H.
  - rewrite VfuncProps.check_obs_closed in H. injection H as <-.
    rewrite VfuncProps.check_obs_closed. cbn [shape data].
    by rewrite padded_fixed.
  - rewrite VfuncProps.check_acs_closed in H. injection H as <-.
    rewrite VfuncProps.check_acs_closed. cbn [shape data].
    by rewrite padded_fixed.
Qed.

Lemma numel_padded (n : nat) t :
  numel (mkTensor (replicate n 1%nat ++ shape t) (data t)) = numel t.
Proof.
  unfold numel. cbn [shape].
  induction n as [|n IH]; [done|]. cbn [replicate app foldr]. lia.
Qed.

(** X2: a shape check keeps the elements and their number, keeps the
    input's dimensions as the trailing ones, and returns a tensor whose
    rank is the larger of the input's rank and the threshold. *)
Theorem check_shape_keeps_elements self t t' :
  (_check_obs_shape self t = Ok t' ->
   data t' = data t /\ numel t' = numel t
   /\ shape t `suffix_of` shape t'
   /\ rank t' = Z.max (rank t) (obs_threshold self))
  /\ (_check_acs_shape self t = Ok t' ->
      data t' = data t /\ numel t' = numel t
      /\ shape t `suffix_of` shape t'
      /\ rank t' = Z.max (rank t) (acs_threshold self)).
Proof.
  split; intros H.
  - rewrite VfuncProps.check_obs_closed in H. injection H as <-.
    split; [done|]. split; [apply numel_padded|].
    split; [by eexists|]. rewrite VfuncProps.rank_padded. lia.
  - rewrite VfuncProps.check_acs_closed in H. injection H as <-.
    split; [done|]. split; [apply numel_padded|].
    split; [by eexists|]. rewrite VfuncProps.rank_padded. lia.
Qed.

(** X3: an input of exactly the space's shape, one observation or one
    action without batch dimensions, comes back as a batch of one: under
    one leading dimension of size one in feed-forward mode and under two
    in recurrent mode. *)
Theorem check_shape_batches_single self t :
  (shape t = space_shape (ob_space self) ->
   _check_obs_shape self t
   = Ok (mkTensor ((if rnn self then [1; 1] else [1])%nat
                   ++ space_shape (ob_space self)) (data t)))
  /\ (shape t = space_shape (ac_space self) ->
      _check_acs_shape self t
      = Ok (mkTensor ((if rnn self then [1; 1] else [1])%nat
                      ++ space_shape (ac_space self)) (data t))).
Proof.
  split; intros H.
  - rewrite VfuncProps.check_obs_closed, <- H.
    unfold obs_threshold, additional_shape, space_rank, rank. rewrite <- H.
    destruct (rnn self).
    + by replace (Z.to_nat _) with 2%nat by lia.
    + by replace (Z.to_nat _) with 1%nat by lia.
  - rewrite VfuncProps.check_acs_closed, <- H.
    unfold acs_threshold, additional_shape, space_rank, rank. rewrite <- H.
    destruct (rnn self).
    + by replace (Z.to_nat _) with 2%nat by lia.
    + by replace (Z.to_nat _) with 1%nat by lia.
Qed.

(** X4: [reset] is idempotent, leaves a newly constructed object as
    [__init__] made it for either value of [rnn], and does not change what
    the shape checks return. *)
Theorem reset_idempotent_fresh self :
  reset (reset self) = reset self
  /\ (forall (m0 : Module_) o a (n : Net) r dp pd,
        reset (init (Hidden := Hidden) m0 o a n r dp pd)
        = init m0 o a n r dp pd)
  /\ (forall t, _check_obs_shape (reset self) t = _check_obs_shape self t
                /\ _check_acs_shape (reset self) t = _check_acs_shape self t).
Proof.
  split; [|split].
  - unfold reset. destruct (rnn self) eqn:Hr; simpl; by rewrite Hr.
  - intros m0 o a n r dp pd. unfold reset. by destruct r.
  - intros t. unfold reset, _check_obs_shape, _check_acs_shape.
    by destruct (rnn self) eqn:Hr; simpl; rewrite ?Hr.
Qed.

End Shapes.

Lemma check_shape_idempotent_witness :
  _check_obs_shape Examples.sav Examples.five
  = Ok (mkTensor [1%nat; 5%nat] [1; 2; 3; 4; 5])
  /\ _check_obs_shape Examples.sav (mkTensor [1%nat; 5%nat] [1; 2; 3; 4; 5])
     = Ok (mkTensor [1%nat; 5%nat] [1; 2; 3; 4; 5]).
Proof.
  split; [reflexivity|].
  apply (proj1 (check_shape_idempotent Examples.sav Examples.five _)).
  reflexivity.
Defined.

Lemma check_shape_keeps_elements_witness :
  _check_obs_shape Examples.sav_rnn Examples.five
  = Ok (mkTensor [1%nat; 1%nat; 5%nat] [1; 2; 3; 4; 5])
  /\ numel (mkTensor [1%nat; 1%nat; 5%nat] [1; 2; 3; 4; 5])
     = numel Examples.five
  /\ rank (mkTensor [1%nat; 1%nat; 5%nat] [1; 2; 3; 4; 5]) = 3.
Proof.
  split; [reflexivity|].
  destruct (proj1 (check_shape_keeps_elements Examples.sav_rnn Examples.five
                     _) eq_refl) as (_ & Hn & _ & Hr).
  split; [exact Hn|exact Hr].
Defined.

Lemma check_shape_batches_single_witness :
  shape Cases.unbatched = space_shape (ob_space Examples.sav)
  /\ _check_obs_shape Examples.sav Cases.unbatched
     = Ok (mkTensor [1%nat; 3%nat] [7; 8; 9])
  /\ _check_obs_shape Examples.sav_rnn Cases.unbatched
     = Ok (mkTensor [1%nat; 1%nat; 3%nat] [7; 8; 9]).
Proof.
  split; [reflexivity|]. split.
  - apply (proj1 (check_shape_batches_single Examples.sav Cases.unbatched)).
    reflexivity.
  - apply (proj1 (check_shape_batches_single Examples.sav_rnn Cases.unbatched)).
    reflexivity.
Defined.

End VfuncExtra.

(** * Properties of the functions of [run_mpc.py] *)
Module FuncsExtra.

Import Data Py MpcFuncs.

Section Noise.
Context {Arr : Type}.
Variable arr_iadd : Arr -> Arr -> res Arr.
Variable normal : Q -> nat -> Arr.

Local Abbreviation noise_from := (add_noise_from arr_iadd normal).

Lemma add_noise_from_returns (std : Q) (epis : list (Epi Arr)) :
  forall (k0 : nat) (out : list (Epi Arr)),
    noise_from std k0 epis = Returns out ->
    length out = length epis
    /\ forall (k : nat) (e : Epi Arr), epis !! k = Some e ->
         exists o os o',
           obs e = o :: os
           /\ Rew.Qlt_bool std 0 = false
           /\ arr_iadd o (normal std (k0 + k)) = Returns o'
           /\ out !! k = Some (set_obs e (o' :: os)).
Proof.
  induction epis as [|e0 rest IH]; intros k0 out H.
  - injection H as <-. split; [done|]. intros k e Hk. by destruct k.
  - cbn [add_noise_from] in H. destruct (obs e0) as [|o os] eqn:Ho; [done|].
    unfold random_normal in H.
    destruct (Rew.Qlt_bool std 0) eqn:Hstd; [done|]. cbn [and_then] in H.
    destruct (arr_iadd o (normal std k0)) as [o'|err] eqn:Hadd; [|done].
    cbn [and_then] in H.
    destruct (noise_from std (S k0) rest) as [rest'|err] eqn:Hrest; [|done].
    cbn [and_then] in H. injection H as <-.
    destruct (IH _ _ Hrest) as [Hlen Hall].
    split; [simpl; by rewrite Hlen|].
    intros [|k] e Hk.
    + injection Hk as <-. exists o, os, o'. split; [done|]. split; [done|].
      split; [by rewrite Nat.add_0_r|done].
    + destruct (Hall k e Hk) as (o1 & os1 & o1' & Ho1 & _ & Hadd1 & Hout).
      exists o1, os1, o1'. split; [done|]. split; [done|].
      replace (k0 + S k)%nat with (S k0 + k)%nat by lia.
      split; [done|exact Hout].
Qed.

(** X5: when [add_noise_to_init_obs] returns, it returns as many episodes
    as it got, and in the [k]-th only the first observation differs: it
    is what adding the [k]-th draw to the old one in place gives.  Later
    observations, actions, rewards, flags and the derived fields are as
    they were. *)
Theorem add_noise_changes_first_obs_only (epis out : list (Epi Arr))
    (std : Q) :
  add_noise_to_init_obs arr_iadd normal epis std = Returns out ->
  length out = length epis
  /\ forall (k : nat) (e : Epi Arr), epis !! k = Some e ->
       exists e' o o',
         out !! k = Some e'
         /\ obs e !! 0%nat = Some o
         /\ arr_iadd o (normal std k) = Returns o'
         /\ obs e' !! 0%nat = Some o'
         /\ length (obs e') = length (obs e)
         /\ (forall i : nat, obs e' !! S i = obs e !! S i)
         /\ acs e' = acs e /\ rews e' = rews e /\ dones e' = dones e
         /\ next_obs e' = next_obs e /\ h_masks e' = h_masks e.
Proof.
  intros H. destruct (add_noise_from_returns std epis 0 out H) as [Hlen Hall].
  split; [done|]. intros k e Hk.
  destruct (Hall k e Hk) as (o & os & o' & Ho & _ & Hadd & Hout).
  eexists _, o, o'. split; [exact Hout|]. rewrite Ho. by repeat split.
Qed.




End Noise.

Local Open Scope Q_scope.

(** X7: on a single transition [rew_func] returns one number on both
    branches, the entry at index 3 of the next observation minus a
    hundredth of the sum of the squared action entries, in exact
    arithmetic. *)
Theorem rew_func_single_transition (k : kind) (next_obs acs : Matrix)
    (o a : list Q) (x : Q) :
  (3 < ncols next_obs)%nat -> rows next_obs = [o] -> o !! 3%nat = Some x ->
  rows acs = [a] ->
  rew_func k next_obs acs = Returns (Scalar (x - (1 # 100) * sum_sq a)).
Proof.
  intros Hc Ho Hx Ha. unfold rew_func, column, sum_sq_rows.
  destruct (Nat.ltb_spec 3 (ncols next_obs)); [|lia].
  rewrite Ho, Ha. cbn. rewrite Hx. by destruct k.
Qed.

(** X8: when the next observations have fewer than four columns,
    [rew_func] raises [IndexError] on both branches, whatever the
    actions. *)
Theorem rew_func_needs_four_columns (k : kind) (next_obs acs : Matrix) :
  (ncols next_obs <= 3)%nat -> rew_func k next_obs acs = Raises IndexError.
Proof.
  intros Hc. unfold rew_func, column.
  destruct (Nat.ltb_spec 3 (ncols next_obs)); [lia|]. by destruct k.
Qed.

Lemma broadcast_sub_head (e : error) (x y : list Q) (r : Q) (rs : list Q) :
  broadcast_sub e x y = Returns (r :: rs) ->
  exists x0 xs y0 ys, x = x0 :: xs /\ y = y0 :: ys /\ r = x0 - y0.
Proof.
  unfold broadcast_sub.
  destruct x as [|x0 xs], y as [|y0 ys]; cbn [length Nat.eqb].
  - done.
  - by destruct ys.
  - by destruct xs.
  - destruct (length xs =? length ys)%nat.
    + intros [= <- _]. by eexists _, _, _, _.
    + destruct xs as [|x1 xs].
      * intros [= <- _]. by eexists _, _, _, _.
      * destruct ys as [|y1 ys]; [|done].
        intros [= <- _]. by eexists _, _, _, _.
Qed.

(** X9: whenever the numpy branch of [rew_func] returns, both arrays
    have a first row and the result is computed from those first rows
    alone ([rews[0]]): in exact arithmetic, the entry at index 3 of the
    first next observation minus a hundredth of the sum of the squared
    entries of the first action.  The other rows do not enter. *)
Theorem rew_func_numpy_first_row (next_obs acs : Matrix) (out : rews_out) :
  well_formed next_obs ->
  rew_func NdArray next_obs acs = Returns out ->
  exists o os a as_ x,
    rows next_obs = o :: os /\ rows acs = a :: as_ /\ o !! 3%nat = Some x
    /\ out = Scalar (x - (1 # 100) * sum_sq a).
Proof.
  intros Hwf H. unfold rew_func, column, sum_sq_rows in H.
  destruct (Nat.ltb_spec 3 (ncols next_obs)) as [Hc|]; [|done].
  cbn [and_then] in H.
  destruct (broadcast_sub _ _ _) as [[|r rs]|err] eqn:Hb; [done| |done].
  cbn [and_then] in H. injection H as <-.
  apply broadcast_sub_head in Hb as (x0 & xs & y0 & ys & Hx & Hy & ->).
  destruct (rows next_obs) as [|o os] eqn:Ho; [done|].
  destruct (rows acs) as [|a as_] eqn:Ha; [done|].
  injection Hx as <- _. injection Hy as <- _.
  unfold well_formed in Hwf. rewrite Ho in Hwf.
  apply Forall_cons in Hwf as [Hlen _].
  destruct (lookup_lt_is_Some_2 o 3%nat) as [x Hx]; [lia|].
  exists o, os, a, as_, x. rewrite Hx. cbn [default from_option id].
  by repeat split.
Qed.

Lemma add_noise_changes_first_obs_only_witness :
  add_noise_to_init_obs (fun x y => Returns (x + y)) (fun std k => std)
    Cases.two_epis (1 # 2)
  = Returns [mkEpi [1 + (1 # 2); 2] [0; 0] [1; 1] [false; true] None None;
             mkEpi [5 + (1 # 2)] [0] [2] [true] None None]
  /\ exists e',
       [mkEpi [1 + (1 # 2); 2] [0; 0] [1; 1] [false; true] None None;
        mkEpi [5 + (1 # 2)] [0] [2] [true] None None] !! 1%nat = Some e'
       /\ rews e' = [2].
Proof.
  split; [reflexivity|].
  destruct (add_noise_changes_first_obs_only (fun x y => Returns (x + y))
              (fun std k => std) Cases.two_epis _ (1 # 2) eq_refl) as [_ H].
  destruct (H 1%nat _ eq_refl)
    as (e' & o & o' & He' & _ & _ & _ & _ & _ & _ & Hr & _).
  exists e'. split; [exact He'|exact Hr].
Defined.


Lemma rew_func_single_transition_witness :
  rew_func NdArray Cases.one_obs Cases.one_acs
  = Returns (Scalar (7 - (1 # 100) * sum_sq [3; 4]))
  /\ rew_func TorchTensor Cases.one_obs Cases.one_acs
     = Returns (Scalar (7 - (1 # 100) * sum_sq [3; 4]))
  /\ sum_sq [3; 4] == 25.
Proof.
  split; [|split; [|reflexivity]].
  - exact (rew_func_single_transition NdArray Cases.one_obs Cases.one_acs
             _ _ 7 ltac:(simpl; lia) eq_refl eq_refl eq_refl).
  - exact (rew_func_single_transition TorchTensor Cases.one_obs Cases.one_acs
             _ _ 7 ltac:(simpl; lia) eq_refl eq_refl eq_refl).
Defined.

Lemma rew_func_needs_four_columns_witness :
  (ncols Cases.narrow_obs <= 3)%nat
  /\ rew_func NdArray Cases.narrow_obs Cases.one_acs = Raises IndexError.
Proof.
  split; [simpl; lia|].
  apply rew_func_needs_four_columns. simpl; lia.
Defined.

Lemma rew_func_numpy_first_row_witness :
  well_formed Cases.one_obs
  /\ exists x a,
       rew_func NdArray Cases.one_obs Cases.one_acs
       = Returns (Scalar (x - (1 # 100) * sum_sq a)).
Proof.
  assert (Hwf : well_formed Cases.one_obs) by (by repeat constructor).
  split; [exact Hwf|].
  destruct (rew_func_numpy_first_row Cases.one_obs Cases.one_acs
              (Scalar (7 - (1 # 100) * sum_sq [3; 4])) Hwf eq_refl)
    as (o & os & a & as_ & x & _ & _ & _ & Ho).
  exists x, a. rewrite <- Ho. reflexivity.
Defined.

End FuncsExtra.

(** * More properties of the train loop of [run_mpc.py] *)
Module MpcExtra.

Import Data ef Rew Mpc Examples.
Local Open Scope Z_scope.

Lemma best_iters_range (ms : list (option Q)) : forall (mx : Q) (k : Z),
  Forall (fun z => k < z <= k + Z.of_nat (length ms)) (best_iters mx k ms).
Proof.
  induction ms as [|m0 rest IH]; intros mx k; cbn [best_iters]; [constructor|].
  destruct (exceeds m0 mx).
  - constructor; [simpl; lia|].
    eapply Forall_impl; [apply IH|]. simpl. intros; lia.
  - eapply Forall_impl; [apply IH|]. simpl. intros; lia.
Qed.

Lemma exceeds_false_le (a mx : Q) : exceeds (Some a) mx = false -> (a <= mx)%Q.
Proof.
  cbn [exceeds]. intros He. apply Qnot_lt_le.
  intros Hc%MpcProps.Qlt_bool_iff. congruence.
Qed.

(** The test of line 186 holds at the [i]-th mean reward exactly when that
    reward is a number above the starting [max_rew] and above every mean
    reward before it. *)
Lemma best_iters_spec (ms : list (option Q)) : forall (mx : Q) (k : Z) (i : nat),
  (k + Z.of_nat i + 1) ∈ best_iters mx k ms
  <-> exists m, ms !! i = Some (Some m) /\ (mx < m)%Q
        /\ forall (j : nat) (m' : Q), (j < i)%nat ->
             ms !! j = Some (Some m') -> (m' < m)%Q.
Proof.
  induction ms as [|m0 rest IH]; intros mx k i.
  - cbn [best_iters]. split; [by intros ?%elem_of_nil|].
    by intros (m & ? & _).
  - cbn [best_iters]. destruct i as [|i].
    + replace (k + Z.of_nat 0 + 1) with (k + 1) by lia.
      destruct (exceeds m0 mx) eqn:He.
      * split; [|intros _; apply list_elem_of_here].
        intros _. destruct m0 as [a|]; [|done]. exists a.
        split; [done|]. split; [by apply MpcProps.Qlt_bool_iff|].
        intros; lia.
      * split.
        -- intros Hin. pose proof (best_iters_range rest mx (k + 1)) as Hr.
           rewrite Forall_forall in Hr. apply Hr in Hin. lia.
        -- intros (m & [= ->] & Hlt & _).
           apply MpcProps.Qlt_bool_iff in Hlt. cbn [exceeds] in He. congruence.
    + replace (k + Z.of_nat (S i) + 1) with ((k + 1) + Z.of_nat i + 1) by lia.
      destruct (exceeds m0 mx) eqn:He.
      * destruct m0 as [a|]; [|done]. cbn [exceeds] in He.
        apply MpcProps.Qlt_bool_iff in He. cbn [new_max].
        rewrite elem_of_cons, IH. split.
        -- intros [Heq|(m & Hm & Hlt & Hall)]; [lia|]. exists m.
           split; [exact Hm|]. split; [by eapply Qlt_trans|].
           intros [|j] m' Hj Hm'; [by injection Hm' as <-|].
           apply (Hall j); [lia|exact Hm'].
        -- intros (m & Hm & Hlt & Hall). right. exists m.
           split; [exact Hm|]. split; [apply (Hall 0%nat a); [lia|done]|].
           intros j m' Hj Hm'. apply (Hall (S j)); [lia|exact Hm'].
      * rewrite IH. split.
        -- intros (m & Hm & Hlt & Hall). exists m.
           split; [exact Hm|]. split; [done|].
           intros [|j] m' Hj Hm'.
           ++ injection Hm' as ->. apply Qle_lt_trans with mx; [|done].
              by apply exceeds_false_le.
           ++ apply (Hall j); [lia|exact Hm'].
        -- intros (m & Hm & Hlt & Hall). exists m.
           split; [exact Hm|]. split; [done|].
           intros j m' Hj Hm'. apply (Hall (S j)); [lia|exact Hm'].
Qed.

Lemma best_iters_none (ms : list (option Q)) : forall (mx : Q) (k : Z),
  Forall (fun m => exceeds m mx = false) ms -> best_iters mx k ms = [].
Proof.
  induction ms as [|m0 rest IH]; intros mx k Hall; [done|].
  apply Forall_cons in Hall as [H0 Hrest]. cbn [best_iters]. rewrite H0.
  by apply IH.
Qed.

Lemma counters_lookup (k : Z) (n i : nat) :
  (i < n)%nat -> counters k n !! i = Some (k + Z.of_nat i).
Proof.
  intros Hi. unfold counters. by rewrite list_lookup_fmap, lookup_seq_lt.
Qed.

Lemma counters_lookup_ge (k : Z) (n i : nat) :
  (n <= i)%nat -> counters k n !! i = None.
Proof.
  intros Hi. apply lookup_ge_None_2. by rewrite MpcProps.counters_length.
Qed.

Section Loop.
Context {Arr : Type} `{!ArrayOps Arr}.
Variable default_horizon : Z.
Variable rl_sample : Z -> list (Epi Arr).

Local Abbreviation iter := (iterate default_horizon rl_sample).
Local Abbreviation run := (run_mpc default_horizon rl_sample).
Local Abbreviation means n :=
  ((fun k => mean_rew_of (rl_sample k)) <$> counters 0 n).

Implicit Types (v : Vars Arr) (s : Store Arr) (epis : list (Epi Arr)).

Lemma means_lookup (n i : nat) (m : Q) :
  means n !! i = Some (Some m)
  <-> (i < n)%nat /\ mean_rew_of (rl_sample (Z.of_nat i)) = Some m.
Proof.
  rewrite list_lookup_fmap.
  destruct (decide (i < n)%nat) as [Hi|Hi].
  - rewrite counters_lookup by done. cbn [fmap option_fmap option_map].
    replace (0 + Z.of_nat i) with (Z.of_nat i) by lia.
    split; [by intros [= ->]|by intros [_ ->]].
  - rewrite counters_lookup_ge by lia. split; [done|]. intros [? _]; lia.
Qed.

Lemma run_best_written (N : Z) epis v s :
  run (S (Z.to_nat N)) N epis = Some (v, s) ->
  best_written (trace s) = best_iters (-1 # 1000000) 0 (means (Z.to_nat N)).
Proof.
  rewrite MpcProps.run_eq by lia. intros [= Hr].
  apply (f_equal (fun r => best_written (trace (snd r)))) in Hr.
  cbn [snd] in Hr. by rewrite <- Hr, MpcProps.iterate_best.
Qed.

(** X10: the "best" checkpoint is written in exactly those iterations
    whose mean reward is a number greater than -1e-6 and greater than the
    mean reward of every earlier iteration; its iterations lie between 1
    and [num_aggregation_iters]. *)
Theorem best_written_iff_new_record (N : Z) epis v s (i : nat) :
  run (S (Z.to_nat N)) N epis = Some (v, s) ->
  ((Z.of_nat i + 1) ∈ best_written (trace s)
   <-> Z.of_nat i < N
       /\ exists m, mean_rew_of (rl_sample (Z.of_nat i)) = Some m
            /\ (-1 # 1000000 < m)%Q
            /\ forall (j : nat) (m' : Q), (j < i)%nat ->
                 mean_rew_of (rl_sample (Z.of_nat j)) = Some m' -> (m' < m)%Q)
  /\ Forall (fun z => 1 <= z <= N) (best_written (trace s)).
Proof.
  intros Hrun. rewrite (run_best_written N epis v s Hrun). split.
  - replace (Z.of_nat i + 1) with (0 + Z.of_nat i + 1) by lia.
    rewrite best_iters_spec. split.
    + intros (m & Hm & Hlt & Hall). apply means_lookup in Hm as [Hi Hm].
      split; [lia|]. exists m. split; [done|]. split; [done|].
      intros j m' Hj Hm'. apply (Hall j); [done|].
      apply means_lookup. split; [lia|done].
    + intros (Hi & m & Hm & Hlt & Hall). exists m.
      split; [apply means_lookup; split; [lia|done]|]. split; [done|].
      intros j m' Hj Hm'. apply means_lookup in Hm' as [_ Hm'].
      by apply (Hall j).
  - eapply Forall_impl; [apply best_iters_range|].
    simpl. intros z. rewrite length_fmap, MpcProps.counters_length. lia.
Qed.

Lemma after_body_max_rew v s :
  max_rew (fst (after_body default_horizon rl_sample v s))
  = if exceeds (mean_rew_of (rl_sample (counter_agg_iters v))) (max_rew v)
    then new_max (mean_rew_of (rl_sample (counter_agg_iters v))) (max_rew v)
    else max_rew v.
Proof. reflexivity. Qed.

Lemma after_body_counter v s :
  counter_agg_iters (fst (after_body default_horizon rl_sample v s))
  = counter_agg_iters v + 1.
Proof. reflexivity. Qed.

Lemma iterate_max_rew (n : nat) : forall v s,
  (max_rew v <= max_rew (fst (iter n v s)))%Q
  /\ (forall (i : nat) (m : Q), (i < n)%nat ->
        mean_rew_of (rl_sample (counter_agg_iters v + Z.of_nat i)) = Some m ->
        (m <= max_rew (fst (iter n v s)))%Q)
  /\ (max_rew (fst (iter n v s)) = max_rew v
      \/ exists i : nat, (i < n)%nat
           /\ mean_rew_of (rl_sample (counter_agg_iters v + Z.of_nat i))
              = Some (max_rew (fst (iter n v s)))).
Proof.
  induction n as [|n IH]; intros v s.
  - cbn [iterate fst]. split; [apply Qle_refl|]. split; [intros; lia|by left].
  - rewrite MpcProps.iterate_S.
    set (v1 := fst (after_body default_horizon rl_sample v s)).
    set (s1 := snd (after_body default_horizon rl_sample v s)).
    destruct (IH v1 s1) as (IHa & IHb & IHc).
    assert (Hc1 : counter_agg_iters v1 = counter_agg_iters v + 1)
      by apply after_body_counter.
    assert (Hm1 : max_rew v1
                  = if exceeds (mean_rew_of (rl_sample (counter_agg_iters v)))
                         (max_rew v)
                    then new_max (mean_rew_of
                                    (rl_sample (counter_agg_iters v)))
                           (max_rew v)
                    else max_rew v) by apply after_body_max_rew.
    rewrite Hc1 in IHb, IHc.
    assert (Hle : (max_rew v <= max_rew v1)%Q).
    { rewrite Hm1. destruct (exceeds _ _) eqn:He; [|apply Qle_refl].
      destruct (mean_rew_of _) as [a|]; [|done].
      apply Qlt_le_weak. by apply MpcProps.Qlt_bool_iff. }
    split; [by eapply Qle_trans|]. split.
    + intros [|i] m Hi Hm.
      * replace (counter_agg_iters v + Z.of_nat 0)
          with (counter_agg_iters v) in Hm by lia.
        apply Qle_trans with (max_rew v1); [|done].
        rewrite Hm1, Hm. clear Hm1 Hle.
        destruct (exceeds (Some m) (max_rew v)) eqn:He; [apply Qle_refl|].
        by apply exceeds_false_le.
      * apply (IHb i); [lia|].
        by replace (counter_agg_iters v + 1 + Z.of_nat i)
          with (counter_agg_iters v + Z.of_nat (S i)) by lia.
    + destruct IHc as [Heq|(i & Hi & Hm)].
      * rewrite Heq, Hm1. clear Hm1 Hle.
        destruct (mean_rew_of (rl_sample (counter_agg_iters v)))
          as [a|] eqn:Ha; [|by left].
        destruct (exceeds (Some a) (max_rew v)) eqn:He; [|by left].
        right. exists 0%nat. split; [lia|].
        by replace (counter_agg_iters v + Z.of_nat 0)
          with (counter_agg_iters v) by lia.
      * right. exists (S i). split; [lia|].
        by replace (counter_agg_iters v + Z.of_nat (S i))
          with (counter_agg_iters v + 1 + Z.of_nat i) by lia.
Qed.

(** X11: when the loop exits, [max_rew] is the running maximum: it is at
    least -1e-6 and at least every mean reward that was a number, and it
    is -1e-6 or the mean reward of one of the iterations. *)
Theorem max_rew_is_running_max (N : Z) epis v s :
  run (S (Z.to_nat N)) N epis = Some (v, s) ->
  (-1 # 1000000 <= max_rew v)%Q
  /\ (forall (i : nat) (m : Q), Z.of_nat i < N ->
        mean_rew_of (rl_sample (Z.of_nat i)) = Some m -> (m <= max_rew v)%Q)
  /\ (max_rew v = (-1 # 1000000)%Q
      \/ exists i : nat, Z.of_nat i < N
           /\ mean_rew_of (rl_sample (Z.of_nat i)) = Some (max_rew v)).
Proof.
  rewrite MpcProps.run_eq by lia. intros Hr. apply (inj Some) in Hr.
  destruct (iterate_max_rew (Z.to_nat N)
              (fst (after_prepare default_horizon epis))
              (snd (after_prepare default_horizon epis))) as (Ha & Hb & Hc).
  rewrite Hr in Ha, Hb, Hc. cbn [fst after_prepare max_rew counter_agg_iters]
    in Ha, Hb, Hc.
  split; [exact Ha|]. split.
  - intros i m Hi Hm. apply (Hb i); [lia|].
    by replace (0 + Z.of_nat i) with (Z.of_nat i) by lia.
  - destruct Hc as [Hc|(i & Hi & Hm)]; [by left|]. right. exists i.
    split; [lia|]. by replace (0 + Z.of_nat i) with (Z.of_nat i) in Hm by lia.
Qed.

Lemma iterate_written_pair (a b : string) :
  (forall (best : bool) (k : Z),
     written a (save_events (Arr := Arr) best k)
     = written b (save_events (Arr := Arr) best k)) ->
  forall (n : nat) v s,
    written a (trace s) = written b (trace s) ->
    written a (trace (snd (iter n v s))) = written b (trace (snd (iter n v s))).
Proof.
  intros Hab. induction n as [|n IH]; intros v s Hs; [done|].
  rewrite MpcProps.iterate_S. apply IH.
  cbn [after_body snd trace]. unfold written in *.
  rewrite !omap_app, Hs. f_equal.
  unfold body_events. rewrite !omap_app. cbn [omap list_omap app].
  apply Hab.
Qed.

(** X12: the checkpoint of the optimizer is written in exactly the
    iterations in which the checkpoint of the model is written, for the
    "best" pair and for the "latest" pair, and every iteration that writes
    the "best" pair writes the "latest" pair too. *)
Theorem checkpoints_written_in_pairs (N : Z) epis v s :
  run (S (Z.to_nat N)) N epis = Some (v, s) ->
  written "optim_dm_max.pkl" (trace s) = written "dm_max.pkl" (trace s)
  /\ written "optim_dm_last.pkl" (trace s) = written "dm_last.pkl" (trace s)
  /\ best_written (trace s) ⊆ last_written (trace s).
Proof.
  intros Hrun. pose proof Hrun as Hrun'.
  rewrite MpcProps.run_eq in Hrun by lia. apply (inj Some) in Hrun as Hr.
  assert (Hs : s = snd (iter (Z.to_nat N)
                          (fst (after_prepare default_horizon epis))
                          (snd (after_prepare default_horizon epis))))
    by (by rewrite Hr).
  split; [|split].
  - rewrite Hs. apply iterate_written_pair; [|done]. by intros [] k.
  - rewrite Hs. apply iterate_written_pair; [|done]. by intros [] k.
  - intros z Hz.
    rewrite (run_best_written N epis v s Hrun') in Hz.
    pose proof (best_iters_range (means (Z.to_nat N)) (-1 # 1000000) 0) as Hr'.
    rewrite Forall_forall in Hr'. apply Hr' in Hz.
    rewrite length_fmap, MpcProps.counters_length in Hz.
    rewrite Hs, MpcProps.iterate_last. cbn [after_prepare snd fst trace
      counter_agg_iters last_written written omap list_omap app].
    apply list_elem_of_fmap. exists (z - 1). split; [lia|].
    apply list_elem_of_lookup. exists (Z.to_nat (z - 1)).
    rewrite counters_lookup by lia. f_equal. lia.
Qed.

Lemma iterate_no_record (n : nat) : forall v s,
  (forall i : nat, (i < n)%nat ->
     exceeds (mean_rew_of (rl_sample (counter_agg_iters v + Z.of_nat i)))
       (max_rew v) = false) ->
  max_rew (fst (iter n v s)) = max_rew v.
Proof.
  induction n as [|n IH]; intros v s Hno; [done|].
  rewrite MpcProps.iterate_S.
  assert (Hm : max_rew (fst (after_body default_horizon rl_sample v s))
               = max_rew v).
  { rewrite after_body_max_rew.
    replace (counter_agg_iters v) with (counter_agg_iters v + Z.of_nat 0)
      at 1 by lia.
    by rewrite (Hno 0%nat) by lia. }
  rewrite IH; [done|]. intros i Hi. rewrite Hm, after_body_counter.
  replace (counter_agg_iters v + 1 + Z.of_nat i)
    with (counter_agg_iters v + Z.of_nat (S i)) by lia.
  apply Hno. lia.
Qed.

Lemma low_mean_does_not_exceed (m mx : Q) :
  (m <= mx)%Q -> exceeds (Some m) mx = false.
Proof.
  intros Hle. cbn [exceeds]. apply not_true_is_false.
  intros Hc%MpcProps.Qlt_bool_iff. by apply (Qlt_not_le _ _ Hc).
Qed.

(** X13: when the mean reward of no iteration that runs exceeds -1e-6,
    the "best" checkpoint is never written and [max_rew] keeps its
    initial value. *)
Theorem no_best_checkpoint_below_initial (N : Z) epis v s :
  (forall (i : nat) (m : Q), Z.of_nat i < N ->
     mean_rew_of (rl_sample (Z.of_nat i)) = Some m -> (m <= -1 # 1000000)%Q) ->
  run (S (Z.to_nat N)) N epis = Some (v, s) ->
  best_written (trace s) = [] /\ max_rew v = (-1 # 1000000)%Q.
Proof.
  intros Hlow Hrun. split.
  - rewrite (run_best_written N epis v s Hrun). apply best_iters_none.
    apply Forall_lookup. intros i [m|] Hm; [|done].
    apply means_lookup in Hm as [Hi Hm].
    apply low_mean_does_not_exceed, (Hlow i); [lia|done].
  - rewrite MpcProps.run_eq in Hrun by lia. apply (inj Some) in Hrun.
    change v with (fst (v, s)). rewrite <- Hrun.
    rewrite iterate_no_record; [done|].
    intros i Hi. cbn [after_prepare fst counter_agg_iters max_rew].
    replace (0 + Z.of_nat i) with (Z.of_nat i) by lia.
    destruct (mean_rew_of (rl_sample (Z.of_nat i))) as [m|] eqn:Hm; [|done].
    apply low_mean_does_not_exceed, (Hlow i); [lia|done].
Qed.

End Loop.

Lemma scenario_run_exists :
  exists v s,
    run_mpc 4 Examples.scenario_sample 6 5 Examples.d_rand = Some (v, s).
Proof.
  rewrite (MpcProps.run_eq 4 Examples.scenario_sample 5 Examples.d_rand 6)
    by (simpl; lia).
  destruct (iterate _ _ _ _ _) as [v s]. by exists v, s.
Qed.

Lemma best_written_iff_new_record_witness :
  exists v s,
    run_mpc 4 Examples.scenario_sample 6 5 Examples.d_rand = Some (v, s)
    /\ 4 ∈ best_written (trace s).
Proof.
  destruct scenario_run_exists as (v & s & Hrun). exists v, s.
  split; [exact Hrun|].
  apply (proj1 (best_written_iff_new_record 4 Examples.scenario_sample 5
                  Examples.d_rand v s 3 Hrun)).
  split; [lia|]. eexists. split; [reflexivity|]. split; [reflexivity|].
  intros j m' Hj Hm'.
  destruct j as [|[|[|j]]]; [..|lia]; injection Hm' as <-; reflexivity.
Defined.

Lemma max_rew_is_running_max_witness :
  exists v s,
    run_mpc 4 Examples.scenario_sample 6 5 Examples.d_rand = Some (v, s)
    /\ (5 <= max_rew v)%Q.
Proof.
  destruct scenario_run_exists as (v & s & Hrun). exists v, s.
  split; [exact Hrun|].
  destruct (max_rew_is_running_max 4 Examples.scenario_sample 5
              Examples.d_rand v s Hrun) as (_ & Hall & _).
  apply Qle_trans with ((5 + 0) / 1)%Q; [by vm_compute|].
  apply (Hall 3%nat); [lia|reflexivity].
Defined.

Lemma checkpoints_written_in_pairs_witness :
  exists v s,
    run_mpc 4 Examples.scenario_sample 6 5 Examples.d_rand = Some (v, s)
    /\ written "optim_dm_max.pkl" (trace s) = written "dm_max.pkl" (trace s).
Proof.
  destruct scenario_run_exists as (v & s & Hrun). exists v, s.
  split; [exact Hrun|].
  apply (checkpoints_written_in_pairs 4 Examples.scenario_sample 5
           Examples.d_rand v s Hrun).
Defined.

Lemma no_best_checkpoint_below_initial_witness :
  exists v s,
    run_mpc 4 Cases.negative_sample 4 3 Examples.d_rand = Some (v, s)
    /\ best_written (trace s) = [] /\ last_written (trace s) = [1; 2; 3].
Proof.
  destruct (run_mpc 4 Cases.negative_sample 4 3 Examples.d_rand)
    as [[v s]|] eqn:Hrun; [|by vm_compute in Hrun].
  exists v, s. split; [done|]. split.
  - apply (no_best_checkpoint_below_initial 4 Cases.negative_sample 3
             Examples.d_rand v s); [|exact Hrun].
    intros i m _ [= <-]. by vm_compute.
  - revert Hrun. vm_compute. by intros [= _ <-].
Defined.

End MpcExtra.

(** * Properties of the loop of [run_trpo.py] *)
Module TrpoExtra.

Import Data Rew Trpo.
Local Open Scope Z_scope.

Section Loop.
Context {Arr : Type}.
Variable sample : nat -> list (Epi Arr).

Local Abbreviation body := (loop_body sample).
Local Abbreviation loop := (while_loop sample).

Lemma body_total_epi (s : State) :
  total_epi (body s) = total_epi s + Z.of_nat (length (sample (iters s))).
Proof. reflexivity. Qed.

Lemma body_iters (s : State) : iters (body s) = S (iters s).
Proof. reflexivity. Qed.

Lemma steps_sum (paths : list (Epi Arr)) :
  foldr Z.add 0 ((fun p => Z.of_nat (length (rews p))) <$> paths)
  = Z.of_nat (length (concat (rews <$> paths))).
Proof.
  induction paths as [|p paths IH]; [done|].
  cbn [fmap list_fmap foldr concat]. rewrite length_app.
  change (list_fmap _ _ ?f ?l) with (f <$> l) in *. lia.
Qed.

Lemma body_total_step (s : State) :
  total_step (body s)
  = total_step s + Z.of_nat (length (concat (rews <$> sample (iters s)))).
Proof. unfold loop_body. cbn [total_step]. by rewrite steps_sum. Qed.

(** The state after [n] iterations from the initial one. *)
Lemma iter_state (n : nat) :
  iters (Nat.iter n body init_state) = n
  /\ total_epi (Nat.iter n body init_state)
     = Z.of_nat (length (concat (sample <$> seq 0 n)))
  /\ total_step (Nat.iter n body init_state)
     = Z.of_nat (length (concat (rews <$> concat (sample <$> seq 0 n)))).
Proof.
  induction n as [|n (IHi & IHe & IHs)]; [done|].
  cbn [Nat.iter nat_rect]. fold (Nat.iter n body init_state).
  rewrite body_iters, body_total_epi, body_total_step, IHi, IHe, IHs.
  rewrite seq_S, fmap_app, concat_app, fmap_app, concat_app, !length_app.
  cbn [fmap list_fmap concat Nat.add]. rewrite !app_nil_r.
  split; [done|]. split; lia.
Qed.

Lemma iter_shift (n : nat) (s : State) :
  Nat.iter n body (body s) = Nat.iter (S n) body s.
Proof. symmetry. apply Nat.iter_succ_r. Qed.

Lemma loop_exit (max_episodes : Z) (fuel : nat) : forall s s' : State,
  loop fuel max_episodes s = Some s' ->
  exists n : nat,
    s' = Nat.iter n body s
    /\ max_episodes <= total_epi s'
    /\ forall j : nat, (j < n)%nat ->
         total_epi (Nat.iter j body s) < max_episodes.
Proof.
  induction fuel as [|fuel IH]; intros s s' H; [done|].
  cbn [while_loop] in H.
  destruct (Z.gtb_spec max_episodes (total_epi s)) as [Hgt|Hle].
  - destruct (IH _ _ H) as (n & Hs' & Hmax & Hbefore).
    exists (S n). rewrite <- iter_shift. split; [done|]. split; [done|].
    intros [|j] Hj; [simpl; lia|].
    rewrite <- iter_shift. apply Hbefore. lia.
  - injection H as <-. exists 0%nat. split; [done|]. split; [lia|].
    intros; lia.
Qed.

(** X14: when the loop exits it has sampled, over all its iterations, at
    least [max_episodes] paths, and fewer than that before its last
    iteration; [total_epi] is the number of all sampled paths and
    [total_step] the number of all their rewards. *)
Theorem trpo_loop_exit_totals (max_episodes : Z) (fuel : nat) (s : State) :
  loop fuel max_episodes init_state = Some s ->
  s = Nat.iter (iters s) body init_state
  /\ total_epi s = Z.of_nat (length (concat (sample <$> seq 0 (iters s))))
  /\ total_step s
     = Z.of_nat
         (length (concat (rews <$> concat (sample <$> seq 0 (iters s)))))
  /\ max_episodes <= total_epi s
  /\ forall j : nat, (j < iters s)%nat ->
       Z.of_nat (length (concat (sample <$> seq 0 j))) < max_episodes.
Proof.
  intros H. destruct (loop_exit _ _ _ _ H) as (n & Hs & Hmax & Hbefore).
  destruct (iter_state n) as (Hi & He & Hst).
  rewrite <- Hs in Hi, He, Hst. rewrite Hi.
  split; [done|]. split; [done|]. split; [done|]. split; [done|].
  intros j Hj. destruct (iter_state j) as (_ & <- & _). by apply Hbefore.
Qed.

Lemma loop_exits_from (max_episodes : Z) :
  (forall k : nat, sample k <> []) ->
  forall (fuel : nat) (s : State),
    (Z.to_nat (max_episodes - total_epi s) < fuel)%nat ->
    exists s' : State,
      loop fuel max_episodes s = Some s'
      /\ (iters s' <= iters s + Z.to_nat (max_episodes - total_epi s))%nat.
Proof.
  intros Hne. induction fuel as [|fuel IH]; intros s Hf; [lia|].
  cbn [while_loop].
  destruct (Z.gtb_spec max_episodes (total_epi s)) as [Hgt|Hle].
  - assert (Hlen : (0 < length (sample (iters s)))%nat).
    { destruct (sample (iters s)) eqn:Hs; [by apply Hne in Hs|simpl; lia]. }
    destruct (IH (body s)) as (s' & Hs' & Hit).
    { rewrite body_total_epi. lia. }
    exists s'. split; [done|].
    rewrite body_iters, body_total_epi in Hit. lia.
  - exists s. split; [done|]. lia.
Qed.

(** X15: when every call of the sampler returns at least one path, the
    loop exits after at most [max_episodes] iterations. *)
Theorem trpo_loop_exits (max_episodes : Z) :
  (forall k : nat, sample k <> []) ->
  exists s : State,
    loop (S (Z.to_nat max_episodes)) max_episodes init_state = Some s
    /\ (iters s <= Z.to_nat max_episodes)%nat
    /\ max_episodes <= total_epi s.
Proof.
  intros Hne.
  destruct (loop_exits_from max_episodes Hne (S (Z.to_nat max_episodes))
              init_state) as (s & Hs & Hit); [simpl; lia|].
  exists s. split; [done|]. split; [simpl in Hit; lia|].
  by destruct (loop_exit _ _ _ _ Hs) as (_ & _ & ? & _).
Qed.

Lemma loop_stuck (max_episodes : Z) :
  (forall k : nat, sample k = []) ->
  forall (fuel : nat) (s : State),
    total_epi s < max_episodes -> loop fuel max_episodes s = None.
Proof.
  intros Hnil. induction fuel as [|fuel IH]; intros s Hs; [done|].
  cbn [while_loop].
  destruct (Z.gtb_spec max_episodes (total_epi s)); [|lia].
  apply IH. rewrite body_total_epi, Hnil. simpl. lia.
Qed.

(** X16: when the sampler never returns a path and [max_episodes] is
    positive, the loop never exits: no number of iterations ends it. *)
Theorem trpo_loop_never_exits_without_paths (max_episodes : Z) (fuel : nat) :
  (forall k : nat, sample k = []) -> 0 < max_episodes ->
  loop fuel max_episodes init_state = None.
Proof. intros Hnil Hpos. by apply loop_stuck. Qed.

End Loop.

Lemma trpo_loop_exit_totals_witness :
  exists s,
    while_loop Cases.two_paths 5 3 init_state = Some s
    /\ iters s = 2%nat /\ total_epi s = 4 /\ total_step s = 4.
Proof.
  destruct (while_loop Cases.two_paths 5 3 init_state) as [s|] eqn:Hs;
    [|by vm_compute in Hs].
  exists s. split; [done|].
  destruct (trpo_loop_exit_totals Cases.two_paths 3 5 s Hs)
    as (_ & He & Hst & _).
  assert (Hi : iters s = 2%nat) by (revert Hs; vm_compute; by intros [= <-]).
  rewrite Hi in He, Hst. by split.
Defined.

Lemma trpo_loop_exits_witness :
  exists s,
    while_loop Cases.two_paths 4 3 init_state = Some s
    /\ (iters s <= 3)%nat /\ 3 <= total_epi s.
Proof.
  apply (trpo_loop_exits Cases.two_paths 3). by intros k.
Defined.

Lemma trpo_loop_never_exits_without_paths_witness :
  while_loop (fun _ : nat => @nil (Epi Q)) 100 1 init_state = None.
Proof.
  apply trpo_loop_never_exits_without_paths; [done|lia].
Defined.

End TrpoExtra.
